(** * A shallow embedding of the crawl pipeline of anavalo/polit

    The link queue ([src/src/services/linkQueue.ts]), the retry helper
    ([src/src/utils.ts]), the navigation loop of the browser service
    ([src/src/services/browser.ts]), the collection loop
    ([src/src/linkScraper.ts]) and the batch processing of the detail loop
    ([src/src/detailsScraper.ts]).

    JavaScript numbers are modelled as [Z] where the code only stores
    integers (counts, sizes, attempt numbers) and as [Q] where it divides or
    multiplies by fractions (averages, delays, rates). Where the result of
    such an operation is floored or compared into a batch size
    ([calculateAdaptiveBatchSize]), each operation and each literal is
    rounded to the nearest double ([binary64]); elsewhere the values the
    theorems below evaluate are exact in binary floating point as well. *)

From Stdlib Require Import ZArith QArith Qround.
From stdpp Require Import base list gmap sets strings pretty list_numbers.

#[local] Set Warnings "-register-all".
Open Scope Z_scope.

Definition Qltb (a b : Q) : bool := negb (Qle_bool b a).

(** ** Double precision *)

(** [num / den] rounded to the nearest integer, ties to the even one
    ([den > 0]). *)
Definition round_half_even (num den : Z) : Z :=
  let m := num / den in
  let r := num mod den in
  if Z.ltb den (2 * r) || (Z.eqb (2 * r) den && Z.odd m) then m + 1 else m.

(** [a / b] scaled by [2^k], as a numerator and a denominator. *)
Definition scale2 (k a b : Z) : Z * Z :=
  if Z.leb 0 k then (a * 2 ^ k, b) else (a, b * 2 ^ (- k)).

(** For [a, b > 0], the [k] with [2^52 <= a / b * 2^k < 2^53]: the first
    guess from the bit lengths is off by at most one. *)
Definition binary64_exp (a b : Z) : Z :=
  let k0 := 52 - (Z.log2 a - Z.log2 b) in
  let '(num, den) := scale2 k0 a b in
  if Z.ltb num (2 ^ 52 * den) then k0 + 1 else k0.

(** The double nearest to [a / b > 0]: a 53-bit significand times
    [2^-k], rounded half to even. *)
Definition binary64_pos (a b : Z) : Q :=
  let k := binary64_exp a b in
  let '(num, den) := scale2 k a b in
  let m := round_half_even num den in
  if Z.leb 0 k then Qmake m (Z.to_pos (2 ^ k)) else inject_Z (m * 2 ^ (- k)).

(** Round to nearest, ties to even, of IEEE 754 binary64, the rounding of
    every JavaScript arithmetic operation and numeric literal. The exponent
    is not bounded: the values rounded below (rates in [(0, 1]], batch
    sizes times [0.8] or [0.7]) are far from overflow and from the
    subnormal range. *)
Definition binary64 (x : Q) : Q :=
  match Qnum x with
  | Z0 => 0
  | Zpos n => binary64_pos (Zpos n) (Zpos (Qden x))
  | Zneg n => - binary64_pos (Zpos n) (Zpos (Qden x))
  end.

(** ** The link queue: [src/src/services/linkQueue.ts] *)
Module LinkQueue.

(** [interface QueueStats]. *)
Record QueueStats := mkStats {
  processed : Z;
  failed : Z;
  avgProcessingTime : Q
}.

(** The state of a [LinkQueue] object: [queue] (pending, an array),
    [processing] (in-flight, a [Set<string>]), [isComplete] and [stats].
    The logger, [lastEmitTime] and the emitted events only affect logging
    and notification, not this state. *)
Record t := mk {
  queue : list string;
  processing : gset string;
  isComplete : bool;
  stats : QueueStats
}.

Definition init : t :=
  mk [] ∅ false (mkStats 0 0 0%Q).

(** [addLinks]: [links.filter(link => !this.processing.has(link))] is
    pushed onto [queue]. *)
Definition addLinks (q : t) (links : list string) : t :=
  let newLinks := filter (fun link => link ∉ processing q) links in
  mk (queue q ++ newLinks) (processing q) (isComplete q) (stats q).

(** [calculateAdaptiveBatchSize]. The counts are integers below [2^53],
    so [processed + failed] and [maxBatchSize * 2] are exact; the division,
    the literals [0.8] and [0.7] and the two products are rounded to
    doubles before the comparison and [Math.floor]. *)
Definition calculateAdaptiveBatchSize (q : t) (maxBatchSize : Z) : Z :=
  let s := stats q in
  if Z.eqb (processed s) 0 then maxBatchSize
  else
    let successRate :=
      binary64 (inject_Z (processed s) / inject_Z (processed s + failed s)) in
    let processingLoad := Z.of_nat (size (processing q)) in
    let adjustedSize :=
      if Qltb successRate (binary64 (4 # 5))
      then Z.max 1 (Qfloor (binary64 (inject_Z maxBatchSize * binary64 (4 # 5))))
      else maxBatchSize in
    let adjustedSize :=
      if Z.gtb processingLoad (maxBatchSize * 2)
      then Z.max 1 (Qfloor (binary64 (inject_Z adjustedSize * binary64 (7 # 10))))
      else adjustedSize in
    Z.min adjustedSize (Z.of_nat (length (queue q))).

(** [Array.prototype.splice(0, k)] on [queue]: a negative [k] deletes
    nothing, a [k] past the end deletes to the end. Returns the removed
    prefix and the remaining array. *)
Definition splice0 (l : list string) (k : Z) : list string * list string :=
  (take (Z.to_nat k) l, drop (Z.to_nat k) l).

(** [getBatch]: returns the batch and the new state. *)
Definition getBatch (q : t) (maxBatchSize : Z) : list string * t :=
  let adaptiveBatchSize := calculateAdaptiveBatchSize q maxBatchSize in
  let '(batch, rest) := splice0 (queue q) adaptiveBatchSize in
  (batch, mk rest (processing q ∪ list_to_set batch) (isComplete q) (stats q)).

(** [markProcessed]: [processed] is incremented before the average is
    recomputed, as in the source. *)
Definition markProcessed (q : t) (links : list string) (success : bool)
    (processingTime : Q) : t :=
  let processing' := processing q ∖ list_to_set links in
  let s := stats q in
  if success then
    let processed' := processed s + Z.of_nat (length links) in
    let avg' := ((avgProcessingTime s * inject_Z processed' + processingTime)
                 / (inject_Z processed' + 1))%Q in
    mk (queue q) processing' (isComplete q) (mkStats processed' (failed s) avg')
  else
    mk (queue q) processing' (isComplete q)
       (mkStats (processed s) (failed s + Z.of_nat (length links)) (avgProcessingTime s)).

Definition markComplete (q : t) : t :=
  mk (queue q) (processing q) true (stats q).

Definition hasMore (q : t) : bool :=
  Nat.ltb 0 (length (queue q)) || negb (isComplete q) || Nat.ltb 0 (size (processing q)).

(** Calls made on a queue, and what each call hands out or takes back. *)
Inductive op :=
  | AddLinks (links : list string)
  | GetBatch (maxBatchSize : Z)
  | MarkProcessed (links : list string) (success : bool) (processingTime : Q)
  | MarkComplete.

Inductive event :=
  | Drawn (batch : list string)
  | Reported (links : list string)
  | Silent.

Definition step (q : t) (o : op) : t * event :=
  match o with
  | AddLinks l => (addLinks q l, Silent)
  | GetBatch n => let '(b, q') := getBatch q n in (q', Drawn b)
  | MarkProcessed l s tm => (markProcessed q l s tm, Reported l)
  | MarkComplete => (markComplete q, Silent)
  end.

Fixpoint run (q : t) (ops : list op) : t * list event :=
  match ops with
  | [] => (q, [])
  | o :: ops' =>
      let '(q1, e) := step q o in
      let '(q2, es) := run q1 ops' in
      (q2, e :: es)
  end.

(** The last event of a run that mentions a url: [x] is outstanding when
    that event is a draw by [getBatch]. *)
Definition mentions (e : event) (x : string) : bool :=
  match e with
  | Drawn b => bool_decide (x ∈ b)
  | Reported l => bool_decide (x ∈ l)
  | Silent => false
  end.

Definition is_drawn (e : event) : bool :=
  match e with Drawn _ => true | _ => false end.

Fixpoint outstanding (log : list event) (x : string) : bool :=
  match log with
  | [] => false
  | e :: log' =>
      if existsb (fun e' => mentions e' x) log' then outstanding log' x
      else mentions e x && is_drawn e
  end.

End LinkQueue.

(** ** Errors and results: [src/src/types.ts] *)

(** Thrown values. [ScrapingError], [NetworkError] and [ParseError] are the
    classes of [types.ts] (message, url, cause); [JsError] is a plain
    [Error] with its message; [NonError] is a thrown value that is not an
    [Error], with its [String(...)] rendering; [JsNull] is [null]. *)
Inductive js_error :=
  | JsError (message : string)
  | ScrapingError (message : string) (url : string) (cause : option js_error)
  | NetworkError (url : string) (cause : option js_error)
  | ParseError (url : string) (cause : option js_error)
  | NonError (rendering : string)
  | JsNull.

(** A settled promise: its value or the value it rejects with. *)
Inductive outcome (A : Type) :=
  | Ok (a : A)
  | Throw (e : js_error).
Arguments Ok {A} a.
Arguments Throw {A} e.

(** ** The retry helper: [retry] of [src/src/utils.ts] *)
Module Retry.

Record RetryConfig := mkRetryConfig {
  maxAttempts : Z;
  delayMs : Q;
  backoffFactor : Q
}.

(** [error instanceof Error ? error : new Error(String(error))]. *)
Definition asError (e : js_error) : js_error :=
  match e with
  | NonError s => JsError s
  | JsNull => JsError "null"
  | e => e
  end.

(** The template literal [`Failed after ${attempt} attempts: ${context}`]. *)
Definition failedAfter (attempt : Z) (context : string) : string :=
  "Failed after " +:+ pretty attempt +:+ " attempts: " +:+ context.

(** The [for] loop from [attempt] on, with [fuel] iterations left before
    [attempt > maxAttempts]. [operation attempt] is the settled result of
    the [attempt]-th call of [operation()]. Returns the result and the
    delays awaited, in order. *)
Fixpoint retry_loop {A} (config : RetryConfig) (operation : Z -> outcome A)
    (context : string) (attempt : Z) (currentDelay : Q) (fuel : nat)
    : outcome A * list Q :=
  match fuel with
  | O => (Throw (JsError "Unexpected retry failure"), [])
  | S fuel' =>
      match operation attempt with
      | Ok v => (Ok v, [])
      | Throw error =>
          let lastError := asError error in
          if Z.eqb attempt (maxAttempts config) then
            (Throw (ScrapingError (failedAfter attempt context) context (Some lastError)), [])
          else
            let '(r, delays) :=
              retry_loop config operation context (attempt + 1)
                (currentDelay * backoffFactor config)%Q fuel' in
            (r, currentDelay :: delays)
      end
  end.

Definition retry {A} (operation : Z -> outcome A) (config : RetryConfig)
    (context : string) : outcome A * list Q :=
  retry_loop config operation context 1 (delayMs config) (Z.to_nat (maxAttempts config)).

End Retry.

(** ** Navigation and page operations: [src/src/services/browser.ts] *)
Module Browser.

(** Observable effects of a navigation: a rate-limit token taken with
    [this.limiter.removeTokens(1)], or a [setTimeout] wait in ms. *)
Inductive effect :=
  | Token
  | Sleep (ms : Z).

(** What the page does at a given attempt: whether [page.isClosed()] holds,
    and the result of [page.goto(url, ...)] ([None]: it resolved). *)
Definition nav_env := Z -> bool * option js_error.

(** The error an attempt ends with, if any. *)
Definition attempt_error (env : nav_env) (attempt : Z) : option js_error :=
  let '(closed, gotoResult) := env attempt in
  if closed then Some (JsError "Page was closed before navigation") else gotoResult.

(** The effects of an attempt that fails: its token, then the backoff
    wait [Math.min(1000 * Math.pow(2, attempt), 10000)] unless it was the
    last attempt. *)
Definition failed_attempt_effects (maxRetries attempt : Z) : list effect :=
  Token :: (if Z.ltb attempt maxRetries
            then [Sleep (Z.min (1000 * 2 ^ attempt) 10000)] else []).

(** The [for] loop of [navigateToUrl] from [attempt] on, with [fuel]
    iterations left. *)
Fixpoint nav_loop (maxRetries : Z) (env : nav_env) (attempt : Z)
    (lastError : js_error) (fuel : nat) : list effect * outcome unit :=
  match fuel with
  | O => ([], Throw lastError)
  | S fuel' =>
      match attempt_error env attempt with
      | None => ([Token], Ok tt)
      | Some error =>
          let '(effs, r) := nav_loop maxRetries env (attempt + 1) error fuel' in
          (failed_attempt_effects maxRetries attempt ++ effs, r)
      end
  end.

(** [navigateToUrl]: [this.config.scraping.maxRetries ?? 3] attempts,
    [lastError] starts as [null]. *)
Definition navigateToUrl (configMaxRetries : option Z) (env : nav_env)
    : list effect * outcome unit :=
  let maxRetries := default 3 configMaxRetries in
  nav_loop maxRetries env 1 JsNull (Z.to_nat maxRetries).

(** [executeOperation]: [getPage()], then navigation when the url is
    given and truthy ([if (url)]: not the empty string), then
    [operation(page)]; the [catch] rethrows unchanged and the
    [finally] releases the page, logging (never raising) release failures.
    The concurrency limiter only delays the call. *)
Definition executeOperation {A} (getPage : outcome unit) (operation : outcome A)
    (url : option string) (configMaxRetries : option Z) (env : nav_env)
    : list effect * outcome A :=
  match getPage with
  | Throw e => ([], Throw e)
  | Ok _ =>
      match url with
      | None => ([], operation)
      | Some u =>
          if bool_decide (u = EmptyString) then ([], operation)
          else
            let '(effs, r) := navigateToUrl configMaxRetries env in
            match r with
            | Ok _ => (effs, operation)
            | Throw e => (effs, Throw e)
            end
      end
  end.

End Browser.

(** ** The collection loop: [scrapeBookLinks] of [src/src/linkScraper.ts] *)
Module LinkScraper.

(** The collaborators of the loop. [fetchPage url] is the settled result of
    [browserService.executeOperation(..., url)] for that page (navigation,
    then [retry] of [page.goto]/[page.content()], a failure wrapped in
    [NetworkError]); [cheerioLinks] and [cheerioNext] are what the cheerio
    queries inside [extractLinks] and [extractNextPageUrl] return for a
    page's content ([attr('href')] as an option). *)
Record env := mkEnv {
  initialize : outcome unit;
  fetchPage : string -> outcome string;
  cheerioLinks : string -> outcome (list string);
  cheerioNext : string -> outcome (option string);
  baseUrl : string;
  bookListPath : string
}.

(** [extractLinks]: a cheerio failure becomes a [ParseError] for [url]. *)
Definition extractLinks (E : env) (content url : string) : outcome (list string) :=
  match cheerioLinks E content with
  | Ok links => Ok links
  | Throw error => Throw (ParseError url (Some error))
  end.

(** [extractNextPageUrl]: [$(selector).attr('href') || null]. *)
Definition extractNextPageUrl (E : env) (content url : string) : outcome (option string) :=
  match cheerioNext E content with
  | Ok (Some href) => if bool_decide (href = "") then Ok None else Ok (Some href)
  | Ok None => Ok None
  | Throw error => Throw (ParseError url (Some error))
  end.

(** The [while (true)] loop with [fuel] iterations left. [None]: the loop
    is still running when the fuel is spent; [Some r]: it left with a
    [break] ([Ok]) or by a throw. *)
Fixpoint loop (E : env) (fuel : nat) (url : string) (linkQueue : LinkQueue.t)
    : option (outcome unit) * LinkQueue.t :=
  match fuel with
  | O => (None, linkQueue)
  | S fuel' =>
      match fetchPage E url with
      | Throw e => (Some (Throw e), linkQueue)
      | Ok pageContent =>
          match extractLinks E pageContent url with
          | Throw e => (Some (Throw e), linkQueue)
          | Ok [] => (Some (Ok tt), linkQueue)
          | Ok links =>
              let linkQueue' := LinkQueue.addLinks linkQueue links in
              match extractNextPageUrl E pageContent url with
              | Throw e => (Some (Throw e), linkQueue')
              | Ok None => (Some (Ok tt), linkQueue')
              | Ok (Some nextUrl) => loop E fuel' (baseUrl E +:+ nextUrl) linkQueue'
              end
          end
      end
  end.

(** The end of a run of [scrapeBookLinks]: how the returned promise
    settles ([None] while still running), the queue, and whether the
    [finally] block has closed the browser. *)
Record run_result := mkRun {
  result : option (outcome unit);
  finalQueue : LinkQueue.t;
  browserClosed : bool
}.

(** [scrapeBookLinks]: [try { initialize; loop; markComplete() } catch
    (error) { log; throw error } finally { close() }]. *)
Definition scrapeBookLinks (E : env) (fuel : nat) (linkQueue : LinkQueue.t) : run_result :=
  match initialize E with
  | Throw e => mkRun (Some (Throw e)) linkQueue true
  | Ok _ =>
      match loop E fuel (baseUrl E +:+ bookListPath E) linkQueue with
      | (Some (Ok _), q) => mkRun (Some (Ok tt)) (LinkQueue.markComplete q) true
      | (Some (Throw e), q) => mkRun (Some (Throw e)) q true
      | (None, q) => mkRun None q false
      end
  end.

End LinkScraper.

(** ** The detail loop: [src/src/detailsScraper.ts] *)
Module Details.

(** [interface BookDetails]; [scrapedAt] as a timestamp. *)
Record BookDetails := mkDetails {
  title : string;
  author : string;
  recommendationsCount : Z;
  url : string;
  scrapedAt : Z
}.

(** What the three [page.$eval] calls settle with on a page: the trimmed
    title and author texts ([|| ''] applied), and for the recommendations
    element its trimmed [h4] header and [el.children.length]. A missing
    element makes its [$eval] reject. *)
Record DetailPage := mkPage {
  titleEval : outcome string;
  authorEval : outcome string;
  recommendationsEval : outcome (string * Z)
}.

Definition recommendationsPrefix : string := "To βιβλίο".

(** [extractBookDetails]; [Promise.all] rejects with the first rejection,
    taken here in argument order. The [catch] rethrows a [ParseError] and
    wraps anything else. *)
Definition extractBookDetails (page : DetailPage) (url : string) (now : Z)
    : outcome (option BookDetails) :=
  let wrap (error : js_error) :=
    match error with
    | ParseError _ _ => error
    | _ => ParseError url (Some error)
    end in
  match titleEval page, authorEval page, recommendationsEval page with
  | Throw e, _, _ => Throw (wrap e)
  | _, Throw e, _ => Throw (wrap e)
  | _, _, Throw e => Throw (wrap e)
  | Ok title, Ok author, Ok (header, childrenLength) =>
      if bool_decide (title = "") || bool_decide (author = "") then
        Throw (ParseError url None)
      else
        let recommendationsCount :=
          if String.prefix recommendationsPrefix header then childrenLength - 1 else 0 in
        if Z.eqb recommendationsCount 0 then Ok None
        else Ok (Some (mkDetails title author recommendationsCount url now))
  end.

(** One attempt of [processLink] on a url: what [getPage()] settles with,
    how navigation goes, and the page reached. *)
Record attempt_env := mkAttempt {
  getPageResult : outcome unit;
  navigation : Browser.nav_env;
  page : DetailPage
}.

Definition processLinkRetryConfig : Retry.RetryConfig :=
  Retry.mkRetryConfig 3 500 (3 # 2).

(** [processLink]: [retry] of [executeOperation(extractBookDetails, url)];
    the [waitForSelector] race is caught and ignored by the source. *)
Definition processLink (configMaxRetries : option Z) (attempts : Z -> attempt_env)
    (url : string) (now : Z) : outcome (option BookDetails) :=
  fst (Retry.retry
         (fun attempt =>
            let a := attempts attempt in
            snd (Browser.executeOperation (getPageResult a)
                   (extractBookDetails (page a) url now) (Some url)
                   configMaxRetries (navigation a)))
         processLinkRetryConfig url).

(** The per-url result objects of [processBatch]:
    [{success: true, details}], [{success: true, skipped: true}] and
    [{success: false, url}]. *)
Inductive link_result :=
  | Succeeded (details : BookDetails)
  | Skipped
  | FailedUrl (url : string).

Definition to_result (url : string) (r : outcome (option BookDetails)) : link_result :=
  match r with
  | Ok (Some details) => Succeeded details
  | Ok None => Skipped
  | Throw _ => FailedUrl url
  end.

Definition successfulResults (results : list link_result) : list BookDetails :=
  omap (fun r => match r with Succeeded d => Some d | _ => None end) results.

Definition failedUrls (results : list link_result) : list string :=
  omap (fun r => match r with FailedUrl u => Some u | _ => None end) results.

(** [processBatch]: [processLinkResult url] is what [processLink] settles
    with for [url], [saveBatch] what [storageService.saveBookDetailsBatch]
    settles with, [elapsed] is [Date.now() - startTime]. Returns how the
    call settles, the record batches written to the sink, and the queue.
    The [pLimit] concurrency bound only orders the calls. *)
Definition processBatch (processLinkResult : string -> outcome (option BookDetails))
    (saveBatch : list BookDetails -> outcome unit) (links : list string)
    (linkQueue : LinkQueue.t) (elapsed : Q)
    : outcome unit * list (list BookDetails) * LinkQueue.t :=
  let results := map (fun u => to_result u (processLinkResult u)) links in
  let successful := successfulResults results in
  let failedList := failedUrls results in
  let finish (written : list (list BookDetails)) :=
    (Ok tt, written,
     LinkQueue.markProcessed linkQueue links
       (Nat.eqb (length failedList) 0) elapsed) in
  match successful with
  | [] => finish []
  | _ =>
      match saveBatch successful with
      | Throw e => (Throw e, [], LinkQueue.markProcessed linkQueue links false elapsed)
      | Ok _ => finish [successful]
      end
  end.

End Details.

(** ** Traces of queue calls *)
Module QueueTrace.
Import LinkQueue.

(** The urls handed out by the draws of a log, in order. *)
Definition drawn (log : list event) : list string :=
  concat (map (fun e => match e with Drawn b => b | _ => [] end) log).

(** The urls reported back by the [markProcessed] calls of a log. *)
Definition reported (log : list event) : list string :=
  concat (map (fun e => match e with Reported l => l | _ => [] end) log).

(** The urls given to [addLinks] by a sequence of calls, in order. *)
Definition added (ops : list op) : list string :=
  concat (map (fun o => match o with AddLinks l => l | _ => [] end) ops).

End QueueTrace.

(** ** The delays of [retry] *)
Module RetryDelays.

(** The waits of [retry] when [m] attempts fail before the last one:
    [currentDelay] starts at [delayMs] and is multiplied by
    [backoffFactor] after each wait. *)
Fixpoint backoffDelays (currentDelay backoffFactor : Q) (m : nat) : list Q :=
  match m with
  | O => []
  | S m' => currentDelay :: backoffDelays (currentDelay * backoffFactor)%Q backoffFactor m'
  end.

End RetryDelays.

(** ** Persistence: [StorageService] of [src/src/services/storage.ts] *)
Module Storage.

(** Strings are byte strings (UTF-8). The characters the code looks for
    (double quote, comma, newline) are ASCII, and the UTF-8 encoding of a
    non-ASCII character holds no ASCII byte, so [includes], [replace] and
    [split] on them act on the bytes as they act on the characters. *)
Definition dquote : Ascii.ascii := Ascii.ascii_of_nat 34.
Definition comma : Ascii.ascii := Ascii.ascii_of_nat 44.
Definition newline : Ascii.ascii := Ascii.ascii_of_nat 10.

(** The one-character string of [c]. *)
Definition chr (c : Ascii.ascii) : string := String c EmptyString.

(** [s.includes(c)] for a one-character [c]. *)
Fixpoint includes (c : Ascii.ascii) (s : string) : bool :=
  match s with
  | EmptyString => false
  | String c' s' => bool_decide (c' = c) || includes c s'
  end.

(** The global [replace] of [escapeCsvField]: every double quote is
    doubled. *)
Fixpoint replaceQuotes (s : string) : string :=
  match s with
  | EmptyString => EmptyString
  | String c s' =>
      if bool_decide (c = dquote) then String dquote (String dquote (replaceQuotes s'))
      else String c (replaceQuotes s')
  end.

(** [escapeCsvField], the same in the three versions of the class. *)
Definition escapeCsvField (field : string) : string :=
  if includes dquote field || includes comma field || includes newline field
  then String dquote (replaceQuotes field +:+ chr dquote)
  else field.

(** The CSV line of a record, the [join(',')] of [saveBookDetails] and
    [saveBookDetailsBatch]: [recommendationsCount] is rendered in decimal
    by the join, [toISOString] renders [scrapedAt]. *)
Definition csvLine (toISOString : Z -> string) (details : Details.BookDetails) : string :=
  String.concat (chr comma)
    [escapeCsvField (Details.title details);
     escapeCsvField (Details.author details);
     pretty (Details.recommendationsCount details);
     escapeCsvField (Details.url details);
     toISOString (Details.scrapedAt details)].

(** The files, as a map from path to contents. [fs.appendFile] creates a
    missing file; the I/O calls are taken to succeed. *)
Abbreviation files := (gmap string string).

Definition appendFile (fs : files) (filePath data : string) : files :=
  <[filePath := default EmptyString (fs !! filePath) +:+ data]> fs.

(** [saveBookDetailsBatch]: [csvLines.join('\n') + '\n'] is appended. *)
Definition saveBookDetailsBatch (toISOString : Z -> string) (fs : files)
    (filePath : string) (detailsList : list Details.BookDetails) : files :=
  appendFile fs filePath
    (String.concat (chr newline) (map (csvLine toISOString) detailsList) +:+ chr newline).

(** [saveLinks]: [links.join('\n') + '\n'] is appended. *)
Definition saveLinks (fs : files) (filePath : string) (links : list string) : files :=
  appendFile fs filePath (String.concat (chr newline) links +:+ chr newline).

(** [s.split(sep)] for a one-character separator. *)
Fixpoint split (sep : Ascii.ascii) (s : string) : list string :=
  match s with
  | EmptyString => [EmptyString]
  | String c s' =>
      let rest := split sep s' in
      if bool_decide (c = sep) then EmptyString :: rest
      else match rest with
           | [] => [chr c]
           | x :: xs => String c x :: xs
           end
  end.

(** [loadLinks]: a missing file ([ENOENT]) gives an empty list; otherwise
    the lines of the file whose [line.trim()] is not empty.
    [trimIsEmpty line] stands for [line.trim() === ''], JavaScript's set
    of white-space characters being left open. *)
Definition loadLinks (trimIsEmpty : string -> bool) (fs : files) (filePath : string)
    : list string :=
  match fs !! filePath with
  | None => []
  | Some content => filter (fun line => trimIsEmpty line = false) (split newline content)
  end.

(** Reading CSV text the way RFC 4180 reads it, to state what a written
    file holds (this reader is not part of the source). A field is either
    unquoted, running to the next comma or newline, or quoted, where two
    quote characters in a row stand for one. A field read comes with what
    ends it: a comma [Some (true, rest)], a newline [Some (false, rest)]
    or the end of the text [None]. *)
Fixpoint read_unquoted (s : string) : string * option (bool * string) :=
  match s with
  | EmptyString => (EmptyString, None)
  | String c s' =>
      if bool_decide (c = comma) then (EmptyString, Some (true, s'))
      else if bool_decide (c = newline) then (EmptyString, Some (false, s'))
      else let '(f, r) := read_unquoted s' in (String c f, r)
  end.

Fixpoint read_quoted (s : string) : option (string * option (bool * string)) :=
  match s with
  | EmptyString => None
  | String c s' =>
      if bool_decide (c = dquote) then
        match s' with
        | EmptyString => Some (EmptyString, None)
        | String c2 s'' =>
            if bool_decide (c2 = dquote) then
              option_map (fun p => (String dquote (fst p), snd p)) (read_quoted s'')
            else if bool_decide (c2 = comma) then Some (EmptyString, Some (true, s''))
            else if bool_decide (c2 = newline) then Some (EmptyString, Some (false, s''))
            else None
        end
      else option_map (fun p => (String c (fst p), snd p)) (read_quoted s')
  end.

Definition read_field (s : string) : option (string * option (bool * string)) :=
  match s with
  | String c s' => if bool_decide (c = dquote) then read_quoted s' else Some (read_unquoted s)
  | EmptyString => Some (read_unquoted s)
  end.

(** [cur] holds the fields already read of the current record; a newline
    at the very end of the text ends the last record. *)
Fixpoint read_records (fuel : nat) (s : string) (cur : list string)
    : option (list (list string)) :=
  match fuel with
  | O => None
  | S fuel' =>
      match read_field s with
      | None => None
      | Some (f, None) => Some [cur ++ [f]]
      | Some (f, Some (true, r)) => read_records fuel' r (cur ++ [f])
      | Some (f, Some (false, r)) =>
          match r with
          | EmptyString => Some [cur ++ [f]]
          | _ => option_map (fun recs => (cur ++ [f]) :: recs) (read_records fuel' r [])
          end
      end
  end.

Definition readCsv (s : string) : option (list (list string)) :=
  match s with
  | EmptyString => Some []
  | _ => read_records (S (String.length s)) s []
  end.

(** The fields of a record in the column order of its line. *)
Definition csvFields (toISOString : Z -> string) (details : Details.BookDetails)
    : list string :=
  [Details.title details; Details.author details;
   pretty (Details.recommendationsCount details);
   Details.url details; toISOString (Details.scrapedAt details)].

(** A field with no double quote, comma or newline: written as it is. *)
Definition plain (f : string) : Prop :=
  includes dquote f = false /\ includes comma f = false /\ includes newline f = false.

(** What may follow a field on a line, and what it reads as. *)
Definition term_ok (t : string) (x : option (bool * string)) : Prop :=
  (t = EmptyString /\ x = None) \/
  (exists r, t = String comma r /\ x = Some (true, r)) \/
  (exists r, t = String newline r /\ x = Some (false, r)).

(** [w] is read back as the field [f], whatever legal text follows it. *)
Definition encodes (w f : string) : Prop :=
  forall t x, term_ok t x -> read_field (w +:+ t) = Some (f, x).

End Storage.

(** ** Helpers of [src/src/utils.ts] *)
Module Utils.

(** [randomInteger], [random] being the value [Math.random()] returns. *)
Definition randomInteger (random : Q) (min max : Z) : Z :=
  Qfloor (random * inject_Z (max - min + 1)) + min.

(** The function returned by [createProgressLogger], called on a sequence
    of messages, each with the [Date.now()] of its call; returns the
    messages it prints, with that time. [lastLog] is the variable of the
    closure. *)
Fixpoint progressLog (lastLog : Z) (calls : list (Z * string)) : list (Z * string) :=
  match calls with
  | [] => []
  | (now, message) :: calls' =>
      if Z.leb 1000 (now - lastLog) then (now, message) :: progressLog now calls'
      else progressLog lastLog calls'
  end.

Definition createProgressLogger (calls : list (Z * string)) : list (Z * string) :=
  progressLog 0 calls.

End Utils.

(** ** The detail loop: [processBatch] and [scrapeBookDetails] of
    [src/src/detailsScraper.ts] *)
Module DetailLoop.
Import LinkQueue.

(** The [pLimit] concurrency [effectiveBatchSize] of [processBatch], from
    the queue statistics and [config.scraping.maxConcurrent]; [1.2] and
    [0.8] are taken as exact rationals. *)
Definition effectiveBatchSize (s : QueueStats) (baseSize : Z) : Z :=
  let successRate :=
    if Z.ltb 0 (processed s)
    then (inject_Z (processed s - failed s) / inject_Z (processed s))%Q
    else 1%Q in
  Z.max 1 (Qfloor (inject_Z baseSize *
    (if Qltb (9 # 10) successRate then 6 # 5
     else if Qltb (7 # 10) successRate then 1%Q else 4 # 5))).

(** Calls the collection loop makes on the shared queue: [main] runs both
    loops on one queue with [Promise.all], so they interleave at awaits. *)
Inductive producer_action :=
  | PAddLinks (links : list string)
  | PMarkComplete.

Definition produce (acts : list producer_action) (q : t) : t :=
  fold_left (fun q a =>
    match a with
    | PAddLinks l => addLinks q l
    | PMarkComplete => markComplete q
    end) acts q.

(** What happens at the awaits of the [i]-th iteration: the collection
    loop's calls before the loop test ([resumed i]) and while the batch is
    processed ([inFlight i]), how [processLink] settles for each url, how
    the save settles, and the elapsed time of the batch. *)
Record loop_env := mkLoopEnv {
  initializeResult : outcome unit;
  maxConcurrent : Z;
  resumed : nat -> list producer_action;
  inFlight : nat -> list producer_action;
  processLinkResult : nat -> string -> outcome (option Details.BookDetails);
  saveBatch : nat -> list Details.BookDetails -> outcome unit;
  elapsed : nat -> Q
}.

(** The [while (linkQueue.hasMore())] loop from its [i]-th iteration, with
    [fuel] iterations left. The calls of the collection loop during a wait
    are the [resumed] calls of the next iteration; [processBatch] touches
    the queue only at its end. Returns how the loop ends ([None] when out
    of fuel) and the queue. *)
Fixpoint detailLoop (E : loop_env) (fuel : nat) (i : nat) (q : t)
    : option (outcome unit) * t :=
  match fuel with
  | O => (None, q)
  | S fuel' =>
      let q := produce (resumed E i) q in
      if hasMore q then
        let '(batch, q1) := getBatch q (maxConcurrent E) in
        match batch with
        | [] =>
            if hasMore q1 then detailLoop E fuel' (S i) q1
            else (Some (Ok tt), q1)
        | _ :: _ =>
            let '(r, _, q2) :=
              Details.processBatch (processLinkResult E i) (saveBatch E i) batch
                (produce (inFlight E i) q1) (elapsed E i) in
            match r with
            | Ok _ => detailLoop E fuel' (S i) q2
            | Throw e => (Some (Throw e), q2)
            end
        end
      else (Some (Ok tt), q)
  end.

(** [scrapeBookDetails]: [browserService.initialize()], then the loop; a
    rejection is rethrown after [browserService.close()], which catches
    its own errors. *)
Definition scrapeBookDetails (E : loop_env) (fuel : nat) (q : t)
    : option (outcome unit) * t :=
  match initializeResult E with
  | Throw e => (Some (Throw e), q)
  | Ok _ => detailLoop E fuel 0 q
  end.

End DetailLoop.

(** * Properties *)

(** ** Double precision arithmetic *)
(** The literals [0.8] and [0.7] as doubles: [0.8] is rounded up,
    [0.7] down. *)
Lemma binary64_0_8 : binary64 (4 # 5) = Qmake 7205759403792794 9007199254740992.
Proof. vm_compute. reflexivity. Qed.
Lemma binary64_0_7 : binary64 (7 # 10) = Qmake 6305039478318694 9007199254740992.
Proof. vm_compute. reflexivity. Qed.

(** The rounded quotient is within half a unit of [num / den], and even
    on a tie. *)
Lemma round_half_even_spec (num den : Z) : 0 < den ->
  2 * (round_half_even num den * den - num) <= den /\
  2 * (num - round_half_even num den * den) <= den /\
  (2 * (num - round_half_even num den * den) = den \/
   2 * (round_half_even num den * den - num) = den ->
   Z.even (round_half_even num den) = true).
Proof.
  intros Hd. unfold round_half_even.
  pose proof (Z.div_mod num den ltac:(lia)) as Hdm.
  pose proof (Z.mod_pos_bound num den Hd) as Hr.
  set (m := num / den) in *. set (r := num mod den) in *.
  destruct (Z.ltb_spec den (2 * r)) as [H1|H1]; cbn [orb].
  - split; [nia|]. split; [nia|]. intros [H|H]; nia.
  - destruct (Z.eqb_spec (2 * r) den) as [H2|H2]; cbn [andb].
    + destruct (Z.odd m) eqn:Ho.
      * split; [nia|]. split; [nia|]. intros _.
        rewrite Z.even_add, <- Z.negb_odd, Ho. reflexivity.
      * split; [nia|]. split; [nia|]. intros _. rewrite <- Z.negb_odd, Ho. reflexivity.
    + split; [nia|]. split; [nia|]. intros [H|H]; nia.
Qed.


Lemma scale2_pos (k a b : Z) :
  0 < a -> 0 < b -> 0 < fst (scale2 k a b) /\ 0 < snd (scale2 k a b).
Proof.
  intros Ha Hb. unfold scale2.
  destruct (Z.leb_spec 0 k); simpl; split; try lia;
    apply Z.mul_pos_pos; try lia; apply Z.pow_pos_nonneg; lia.
Qed.

Lemma scale2_succ (k a b : Z) :
  fst (scale2 (k + 1) a b) * snd (scale2 k a b) =
  2 * fst (scale2 k a b) * snd (scale2 (k + 1) a b).
Proof.
  unfold scale2.
  destruct (Z.leb_spec 0 k); destruct (Z.leb_spec 0 (k + 1)); cbn [fst snd]; try lia.
  - rewrite Z.pow_add_r by lia. ring.
  - assert (k = -1) by lia. subst. change (-1 + 1) with 0. change (- -1) with 1. rewrite Z.pow_0_r, Z.pow_1_r. ring.
  - replace (- k) with (- (k + 1) + 1) by lia. rewrite Z.pow_add_r by lia. ring.
Qed.

(** The exponent puts [a / b] in the binade [[2^52, 2^53)]. *)
Lemma binary64_exp_spec (a b : Z) : 0 < a -> 0 < b ->
  2 ^ 52 * snd (scale2 (binary64_exp a b) a b) <= fst (scale2 (binary64_exp a b) a b) <
  2 ^ 53 * snd (scale2 (binary64_exp a b) a b).
Proof.
  intros Ha Hb.
  assert (H0 : 2 ^ 51 * snd (scale2 (52 - (Z.log2 a - Z.log2 b)) a b) <=
               fst (scale2 (52 - (Z.log2 a - Z.log2 b)) a b) <
               2 ^ 53 * snd (scale2 (52 - (Z.log2 a - Z.log2 b)) a b)).
  { pose proof (Z.log2_spec a Ha) as [Ha1 Ha2]. pose proof (Z.log2_spec b Hb) as [Hb1 Hb2].
    pose proof (Z.log2_nonneg a). pose proof (Z.log2_nonneg b).
    set (la := Z.log2 a) in *. set (lb := Z.log2 b) in *.
    rewrite Z.pow_succ_r in Ha2, Hb2 by lia.
    unfold scale2. destruct (Z.leb_spec 0 (52 - (la - lb))) as [Hk|Hk]; simpl.
    - assert (HE : 2 ^ la * 2 ^ (52 - (la - lb)) = 2 ^ 52 * 2 ^ lb)
        by (rewrite <- !Z.pow_add_r by lia; f_equal; lia).
      pose proof (Z.pow_pos_nonneg 2 (52 - (la - lb)) ltac:(lia) Hk) as HEp.
      set (E := 2 ^ (52 - (la - lb))) in *.
      split; nia.
    - assert (HE : 2 ^ la = 2 ^ 52 * 2 ^ lb * 2 ^ (- (52 - (la - lb))))
        by (rewrite <- !Z.pow_add_r by lia; f_equal; lia).
      pose proof (Z.pow_pos_nonneg 2 (- (52 - (la - lb))) ltac:(lia) ltac:(lia)) as HEp.
      set (E := 2 ^ (- (52 - (la - lb)))) in *.
      split; nia. }
  unfold binary64_exp. set (k0 := 52 - (Z.log2 a - Z.log2 b)) in *.
  pose proof (scale2_pos k0 a b Ha Hb) as [Hn0 Hd0].
  pose proof (scale2_pos (k0 + 1) a b Ha Hb) as [Hn1 Hd1].
  pose proof (scale2_succ k0 a b) as Hs.
  destruct (scale2 k0 a b) as [n0 d0] eqn:E0. simpl in H0, Hn0, Hd0, Hs.
  destruct (Z.ltb_spec n0 (2 ^ 52 * d0)) as [Hl|Hl]; [|rewrite E0; simpl; lia].
  destruct (scale2 (k0 + 1) a b) as [n1 d1]. simpl in *.
  split; nia.
Qed.


(** A positive ratio rounds to [m / 2^k] with [m] the nearest integer
    (ties to even) to [a / b * 2^k] and [2^52 <= a / b * 2^k < 2^53]. *)
Lemma binary64_pos_spec (a b : Z) : 0 < a -> 0 < b ->
  exists k num den m,
    scale2 k a b = (num, den) /\
    binary64_pos a b =
      (if Z.leb 0 k then Qmake m (Z.to_pos (2 ^ k)) else inject_Z (m * 2 ^ (- k))) /\
    0 < den /\ 2 ^ 52 * den <= num < 2 ^ 53 * den /\
    2 * (m * den - num) <= den /\ 2 * (num - m * den) <= den /\
    (2 * (num - m * den) = den \/ 2 * (m * den - num) = den -> Z.even m = true).
Proof.
  intros Ha Hb. pose proof (binary64_exp_spec a b Ha Hb) as He.
  pose proof (scale2_pos (binary64_exp a b) a b Ha Hb) as [_ Hd].
  unfold binary64_pos.
  destruct (scale2 (binary64_exp a b) a b) as [num den] eqn:Es. simpl in He, Hd.
  pose proof (round_half_even_spec num den Hd) as (H1 & H2 & H3).
  exists (binary64_exp a b), num, den, (round_half_even num den).
  split; [exact Es|]. split; [reflexivity|]. tauto.
Qed.

Lemma binary64_Qnum_pos (x : Q) :
  0 < Qnum x -> binary64 x = binary64_pos (Qnum x) (Zpos (Qden x)).
Proof. unfold binary64. destruct (Qnum x); [lia|reflexivity|lia]. Qed.

Lemma Qfloor_Qmake_pow (m k : Z) : 0 <= k ->
  Qfloor (Qmake m (Z.to_pos (2 ^ k))) = m / 2 ^ k.
Proof.
  intros Hk. unfold Qfloor. rewrite Z2Pos.id; [reflexivity|].
  apply Z.pow_pos_nonneg; lia.
Qed.

(** Scaling by a double below 1 and flooring never exceeds the integer
    scaled. *)
Lemma floor_mul_le (s c : Z) : 1 <= s -> 0 < c < 2 ^ 53 ->
  Qfloor (binary64 (inject_Z s * Qmake c 9007199254740992)) <= s.
Proof.
  intros Hs Hc. rewrite binary64_Qnum_pos by (simpl; nia). simpl Qnum. simpl Qden.
  destruct (binary64_pos_spec (s * c) (Z.pos (1 * 9007199254740992)) ltac:(nia) ltac:(lia))
    as (k & num & den & m & Es & Ev & Hd & [Hl Hu] & H1 & H2 & _).
  rewrite Ev. unfold scale2 in Es. change (Z.pos (1 * 9007199254740992)) with (2 ^ 53) in Es.
  destruct (Z.leb_spec 0 k) as [Hk|Hk].
  - inversion Es; subst num den. rewrite Qfloor_Qmake_pow by exact Hk.
    pose proof (Z.pow_pos_nonneg 2 k ltac:(lia) Hk) as HK. set (K := 2 ^ k) in *.
    apply Z.div_le_upper_bound; [lia|]. nia.
  - inversion Es; subst num den. rewrite Qfloor_Z.
    pose proof (Z.pow_pos_nonneg 2 (- k) ltac:(lia) ltac:(lia)) as HE. set (E := 2 ^ (- k)) in *.
    nia.
Qed.


(** For [0 < p] and [p + f <= 2^50], the double test
    [p / (p + f) < 0.8] is the exact test [5 * p < 4 * (p + f)]. *)
Lemma binary64_rate (p f : Z) : 0 < p -> 0 <= f -> p + f <= 2 ^ 50 ->
  Qltb (binary64 (inject_Z p / inject_Z (p + f))%Q) (binary64 (4 # 5)) =
  Z.ltb (5 * p) (4 * (p + f)).
Proof.
  intros Hp Hf Hb. rewrite binary64_0_8.
  assert (Hq : (inject_Z p / inject_Z (p + f))%Q = Qmake p (Z.to_pos (p + f))).
  { unfold Qdiv, Qinv, inject_Z. simpl Qnum. destruct (p + f) eqn:E; try lia.
    unfold Qmult. simpl. f_equal; lia. }
  rewrite Hq, binary64_Qnum_pos by (simpl; lia). simpl Qnum. simpl Qden.
  rewrite Z2Pos.id by lia.
  destruct (binary64_pos_spec p (p + f) Hp ltac:(lia))
    as (k & num & den & m & Es & Ev & Hd & [Hl Hu] & H1 & H2 & _).
  rewrite Ev. unfold scale2 in Es.
  destruct (Z.leb_spec 0 k) as [Hk|Hk].
  2: { inversion Es; subst num den.
       pose proof (Z.pow_pos_nonneg 2 (- k) ltac:(lia) ltac:(lia)). nia. }
  inversion Es; subst num den.
  pose proof (Z.pow_pos_nonneg 2 k ltac:(lia) Hk) as HK.
  unfold Qltb, Qle_bool. simpl Qnum. simpl Qden. rewrite Z2Pos.id by exact HK.
  set (S := p + f) in *.
  assert (HK52 : 2 ^ 52 <= 2 ^ k) by nia.
  set (K := 2 ^ k) in *.
  destruct (Z.ltb_spec (5 * p) (4 * S)) as [Hlt|Hge].
  - apply negb_true_iff, Z.leb_gt.
    assert (H10 : 10 * m * S * 9007199254740992 < 10 * 7205759403792794 * K * S) by nia.
    nia.
  - apply negb_false_iff, Z.leb_le.
    assert (HKu : K < 2 ^ 54) by nia.
    assert (Hk2 : k = 52 \/ k = 53).
    { assert (52 <= k) by (apply (Z.pow_le_mono_r_iff 2); lia).
      assert (k < 54) by (apply (Z.pow_lt_mono_r_iff 2); lia). lia. }
    destruct Hk2 as [-> | ->]; subst K; simpl in *; nia.
Qed.


(** For [1 <= n <= 2^50], [Math.floor(n * 0.8)] is [floor(4 * n / 5)]. *)
Lemma binary64_floor_0_8 (n : Z) : 1 <= n <= 2 ^ 50 ->
  Qfloor (binary64 (inject_Z n * binary64 (4 # 5))) = n * 4 / 5.
Proof.
  intros Hn. rewrite binary64_0_8.
  rewrite binary64_Qnum_pos by (simpl; nia). simpl Qnum. simpl Qden.
  change (Z.pos (1 * 9007199254740992)) with 9007199254740992.
  destruct (binary64_pos_spec (n * 7205759403792794) 9007199254740992 ltac:(nia) ltac:(lia))
    as (k & num & den & m & Es & Ev & Hd & [Hl Hu] & H1 & H2 & _).
  rewrite Ev. unfold scale2 in Es.
  destruct (Z.leb_spec 0 k) as [Hk|Hk].
  2: { inversion Es; subst num den.
       pose proof (Z.pow_pos_nonneg 2 (- k) ltac:(lia) ltac:(lia)). nia. }
  inversion Es; subst num den. rewrite Qfloor_Qmake_pow by exact Hk.
  pose proof (Z.pow_pos_nonneg 2 k ltac:(lia) Hk) as HK. set (K := 2 ^ k) in *.
  assert (HK5 : 5 <= K) by nia.
  pose proof (Z.div_mod (n * 4) 5 ltac:(lia)) as HF.
  pose proof (Z.mod_pos_bound (n * 4) 5 ltac:(lia)) as HFr.
  set (F := n * 4 / 5) in *.
  assert (Hlo : F * K <= m).
  { assert (10 * 9007199254740992 * (m - F * K) > - 10 * 9007199254740992) by nia. nia. }
  assert (Hhi : m < (F + 1) * K).
  { assert (10 * 9007199254740992 * m < 10 * 9007199254740992 * ((F + 1) * K)) by nia. nia. }
  symmetry. apply (Z.div_unique m K F (m - K * F)); [left; nia|ring].
Qed.


(** No power of two is a multiple of 7. *)
Lemma pow2_mod7 (L : Z) : 0 <= L ->
  2 ^ L mod 7 = 1 \/ 2 ^ L mod 7 = 2 \/ 2 ^ L mod 7 = 4.
Proof.
  intros HL. pattern L; apply natlike_ind; [left; reflexivity| |exact HL].
  intros x Hx IH. rewrite Z.pow_succ_r by exact Hx. rewrite Z.mul_mod by lia.
  destruct IH as [-> | [-> | ->]]; cbv; auto.
Qed.

(** For [1 <= n <= 2^50], [Math.floor(n * 0.7)] is [floor(7 * n / 10)],
    except for [n = 10 * q] with [2^log2(7 * q) < 4 * q]: there the error of
    the double [0.7] times [n] exceeds half a unit in the last place of
    [7 * q], the product rounds to just below [7 * q], and the floor is
    [7 * q - 1]. *)
Lemma binary64_floor_0_7 (n : Z) : 1 <= n <= 2 ^ 50 ->
  Qfloor (binary64 (inject_Z n * binary64 (7 # 10))) =
  if Z.eqb (n mod 10) 0 then
    (if Z.ltb (2 ^ Z.log2 (7 * (n / 10))) (4 * (n / 10))
     then 7 * (n / 10) - 1 else 7 * (n / 10))
  else n * 7 / 10.
Proof.
  intros Hn. rewrite binary64_0_7.
  rewrite binary64_Qnum_pos by (simpl; nia). simpl Qnum. simpl Qden.
  change (Z.pos (1 * 9007199254740992)) with 9007199254740992.
  destruct (binary64_pos_spec (n * 6305039478318694) 9007199254740992 ltac:(nia) ltac:(lia))
    as (k & num & den & m & Es & Ev & Hd & [Hl Hu] & H1 & H2 & H3).
  rewrite Ev. unfold scale2 in Es.
  destruct (Z.leb_spec 0 k) as [Hk|Hk].
  2: { inversion Es; subst num den.
       pose proof (Z.pow_pos_nonneg 2 (- k) ltac:(lia) ltac:(lia)). nia. }
  inversion Es; subst num den. rewrite Qfloor_Qmake_pow by exact Hk.
  pose proof (Z.pow_pos_nonneg 2 k ltac:(lia) Hk) as HK.
  assert (HK6 : 6 <= 2 ^ k) by nia.
  destruct (Z.eqb_spec (n mod 10) 0) as [H10|H10].
  - pose proof (Z.div_mod n 10 ltac:(lia)) as Hq. rewrite H10, Z.add_0_r in Hq.
    set (q := n / 10) in *.
    assert (Hq1 : 1 <= q) by lia.
    pose proof (Z.log2_spec (7 * q) ltac:(lia)) as [HP1 HP2].
    pose proof (Z.log2_nonneg (7 * q)) as HL0.
    pose proof (pow2_mod7 (Z.log2 (7 * q)) HL0) as HP7.
    rewrite Z.pow_succ_r in HP2 by exact HL0.
    assert (HPq : 2 ^ Z.log2 (7 * q) + 1 <= 7 * q).
    { assert (2 ^ Z.log2 (7 * q) <> 7 * q) as Hne.
      { intros Heq. rewrite Heq in HP7. rewrite Z.mul_comm, Z_mod_mult in HP7. lia. }
      lia. }
    assert (HKP : 2 ^ k * 2 ^ Z.log2 (7 * q) = 2 ^ 52).
    { rewrite <- Z.pow_add_r by lia. f_equal.
      set (P := 2 ^ Z.log2 (7 * q)) in *. set (K := 2 ^ k) in *.
      assert (Hlo : 2 ^ 51 < K * P) by nia.
      assert (Hhi : K * P < 2 ^ 53).
      { destruct (Z.lt_ge_cases (K * P) (2 ^ 53)) as [H|H]; [exact H|].
        exfalso. assert (7 * q * K >= 2 ^ 53 + K) by nia. nia. }
      subst P K. rewrite <- Z.pow_add_r in Hlo, Hhi by lia.
      apply Z.pow_lt_mono_r_iff in Hlo; [|lia|lia].
      apply Z.pow_lt_mono_r_iff in Hhi; [|lia|lia]. lia. }
    set (P := 2 ^ Z.log2 (7 * q)) in *. set (K := 2 ^ k) in *.
    destruct (Z.ltb_spec P (4 * q)) as [HP|HP].
    + assert (Hm : m = 7 * q * K - 1).
      { assert (m <= 7 * q * K - 1) by nia.
        assert (m >= 7 * q * K - 1) by nia. lia. }
      symmetry. apply (Z.div_unique m K (7 * q - 1) (K - 1)); [left; lia|nia].
    + assert (Hm : m = 7 * q * K).
      { assert (m <= 7 * q * K) by nia.
        assert (m >= 7 * q * K - 1) by nia.
        destruct (Z.eq_dec m (7 * q * K - 1)) as [Em|Em]; [|lia].
        exfalso. assert (HqK : q * K = 2 ^ 50) by nia.
        assert (Ev2 : Z.even m = true) by (apply H3; left; nia).
        assert (Em' : m = 7881299347898367) by nia.
        rewrite Em' in Ev2. discriminate. }
      symmetry. apply (Z.div_unique m K (7 * q) 0); [left; lia|nia].
  - pose proof (Z.div_mod (n * 7) 10 ltac:(lia)) as HF.
    pose proof (Z.mod_pos_bound (n * 7) 10 ltac:(lia)) as HFr.
    pose proof (Z.div_mod n 10 ltac:(lia)) as Hn10.
    pose proof (Z.mod_pos_bound n 10 ltac:(lia)) as Hn10r.
    set (F := n * 7 / 10) in *. set (K := 2 ^ k) in *.
    assert (HF1 : 10 * F <= 7 * n - 1) by lia.
    assert (Hlo : F * K <= m).
    { assert (10 * 9007199254740992 * (m - F * K) > - 10 * 9007199254740992) by nia. nia. }
    assert (Hhi : m < (F + 1) * K).
    { assert (10 * 9007199254740992 * m < 10 * 9007199254740992 * ((F + 1) * K)) by nia. nia. }
    symmetry. apply (Z.div_unique m K F (m - K * F)); [left; nia|ring].
Qed.


(** ** The link queue *)
Section QueueFacts.
Import LinkQueue.

(** Scaling an integer by a fraction and flooring it is integer division. *)
Lemma Qfloor_scale (a : Z) (num : Z) (den : positive) :
  Qfloor (inject_Z a * (num # den)) = (a * num) / Z.pos den.
Proof. unfold Qfloor, inject_Z, Qmult. simpl. reflexivity. Qed.

(** [addLinks] appends exactly the given links that are not in flight. *)
Lemma addLinks_queue (q : t) (links : list string) :
  queue (addLinks q links) = queue q ++ filter (fun link => link ∉ processing q) links.
Proof. reflexivity. Qed.

Lemma addLinks_skips_in_flight (q : t) (links : list string) (x : string) :
  x ∈ processing q -> x ∈ queue (addLinks q links) -> x ∈ queue q.
Proof.
  intros Hin Hq. rewrite addLinks_queue, elem_of_app in Hq.
  destruct Hq as [Hq|Hq]; [exact Hq|].
  apply list_elem_of_filter in Hq. destruct Hq as [Hn _]. contradiction.
Qed.

(** The number of items [getBatch] hands out is the adaptive size clamped
    to the pending length. *)
Lemma getBatch_length (q : t) (n : Z) :
  Z.of_nat (length (fst (getBatch q n))) =
  Z.max 0 (Z.min (calculateAdaptiveBatchSize q n) (Z.of_nat (length (queue q)))).
Proof.
  unfold getBatch, splice0. simpl. rewrite length_take. lia.
Qed.

(** The adaptive size never exceeds a positive maximum: both factors are
    doubles below 1. *)
Lemma adaptive_le_max (q : t) (n : Z) :
  1 <= n -> calculateAdaptiveBatchSize q n <= n.
Proof.
  intros Hn. unfold calculateAdaptiveBatchSize. cbv zeta.
  destruct (Z.eqb _ 0); [lia|].
  rewrite binary64_0_8, binary64_0_7.
  destruct (Qltb _ _).
  - pose proof (floor_mul_le n 7205759403792794 Hn ltac:(lia)) as H1.
    set (s := Z.max 1 (Qfloor (binary64 (inject_Z n * _)))).
    assert (Hs : 1 <= s <= n) by lia.
    destruct (Z.gtb _ _); [|lia].
    pose proof (floor_mul_le s 6305039478318694 ltac:(lia) ltac:(lia)). lia.
  - destruct (Z.gtb _ _); [|lia].
    pose proof (floor_mul_le n 6305039478318694 Hn ltac:(lia)). lia.
Qed.

Lemma step_processing (q : t) (o : op) (x : string) :
  x ∈ processing (fst (step q o)) <->
  (if mentions (snd (step q o)) x then is_drawn (snd (step q o)) = true
   else x ∈ processing q).
Proof.
  destruct o as [l|n|l s tm|]; simpl.
  - reflexivity.
  - unfold getBatch, splice0. simpl.
    rewrite elem_of_union, elem_of_list_to_set.
    case_bool_decide; simpl; split; auto; intros [H'|H']; tauto.
  - unfold markProcessed. case_bool_decide as Hx; destruct s; simpl;
      rewrite elem_of_difference, elem_of_list_to_set; split; try tauto;
      intros; congruence.
  - reflexivity.
Qed.

Lemma run_processing (ops : list op) (q : t) (x : string) :
  x ∈ processing (fst (run q ops)) <->
  (if existsb (fun e => mentions e x) (snd (run q ops))
   then outstanding (snd (run q ops)) x = true
   else x ∈ processing q).
Proof.
  revert q. induction ops as [|o ops IH]; intros q; simpl; [reflexivity|].
  pose proof (step_processing q o x) as Hs.
  destruct (step q o) as [q1 e] eqn:Hstep. simpl in Hs.
  specialize (IH q1). destruct (run q1 ops) as [q2 log] eqn:Hrun. simpl in *.
  rewrite IH. destruct (existsb _ log); simpl; [|rewrite orb_false_r];
    [destruct (mentions e x); reflexivity|].
  rewrite Hs. destruct (mentions e x), (is_drawn e); simpl; split; congruence.
Qed.

Lemma run_queue_complete (ops : list op) (q : t) :
  isComplete (fst (run q ops)) = true <-> isComplete q = true \/ MarkComplete ∈ ops.
Proof.
  revert q. induction ops as [|o ops IH]; intros q; simpl.
  - rewrite elem_of_nil. tauto.
  - destruct (step q o) as [q1 e] eqn:Hstep.
    specialize (IH q1). destruct (run q1 ops) as [q2 log]. simpl in *.
    rewrite IH, elem_of_cons.
    destruct o; simpl in Hstep;
      [ inversion Hstep; subst; simpl
      | destruct (getBatch q maxBatchSize) eqn:Hg; inversion Hstep; subst;
        unfold getBatch, splice0 in Hg; inversion Hg; subst; simpl
      | inversion Hstep; subst; unfold markProcessed; destruct success; simpl
      | inversion Hstep; subst; simpl ];
      split; intuition congruence.
Qed.

End QueueFacts.

(** ** Claims about the link queue *)

(** C1 (the code misses the pending check): [addLinks] only filters out
    in-flight urls, so on a fresh queue [addLinks(["a"])] twice leaves
    ["a"] twice in pending, and a following [getBatch(1)] leaves ["a"]
    both pending and in flight. *)
Theorem addLinks_duplicates_pending :
  LinkQueue.queue (fst (LinkQueue.run LinkQueue.init
    [LinkQueue.AddLinks ["a"]; LinkQueue.AddLinks ["a"]])) = ["a"; "a"] /\
  (let q := fst (LinkQueue.run LinkQueue.init
      [LinkQueue.AddLinks ["a"]; LinkQueue.AddLinks ["a"]; LinkQueue.GetBatch 1]) in
   "a" ∈ LinkQueue.queue q /\ "a" ∈ LinkQueue.processing q).
Proof.
  split; [reflexivity|]. simpl. split; [left|set_solver].
Qed.

(** C2 (the code counts the new items before averaging): from
    [processed = 0, avg = 0], [markProcessed(["x"], true, 100)] gives
    [processed = 1] and [avg = 50], not 100; a second call with 300 gives
    [processed = 2] and [avg = 400/3], not 200. *)
Theorem markProcessed_average_uses_new_count :
  let q1 := LinkQueue.markProcessed LinkQueue.init ["x"] true 100 in
  let q2 := LinkQueue.markProcessed q1 ["y"] true 300 in
  LinkQueue.processed (LinkQueue.stats q1) = 1 /\
  Qeq (LinkQueue.avgProcessingTime (LinkQueue.stats q1)) 50 /\
  ~ Qeq (LinkQueue.avgProcessingTime (LinkQueue.stats q1)) 100 /\
  LinkQueue.processed (LinkQueue.stats q2) = 2 /\
  Qeq (LinkQueue.avgProcessingTime (LinkQueue.stats q2)) (400 # 3) /\
  ~ Qeq (LinkQueue.avgProcessingTime (LinkQueue.stats q2)) 200.
Proof.
  cbv zeta. repeat split; try reflexivity; unfold Qeq; simpl; lia.
Qed.

(** C4: [hasMore()] is [pending.length > 0 || !isComplete ||
    processing.size > 0]; on a queue driven from its initial state, it is
    false exactly when pending is empty, [markComplete()] has been called
    and every url drawn by [getBatch] has since been reported by
    [markProcessed]. *)
Theorem hasMore_termination :
  (forall q : LinkQueue.t,
     LinkQueue.hasMore q = true <->
     LinkQueue.queue q <> [] \/ LinkQueue.isComplete q = false \/
     LinkQueue.processing q <> ∅) /\
  (forall ops : list LinkQueue.op,
     let '(q, log) := LinkQueue.run LinkQueue.init ops in
     LinkQueue.hasMore q = false <->
     LinkQueue.queue q = [] /\ LinkQueue.MarkComplete ∈ ops /\
     (forall x, LinkQueue.outstanding log x = false)).
Proof.
  assert (Hq : forall q : LinkQueue.t,
     LinkQueue.hasMore q = true <->
     LinkQueue.queue q <> [] \/ LinkQueue.isComplete q = false \/
     LinkQueue.processing q <> ∅).
  { intros q. unfold LinkQueue.hasMore.
    rewrite !orb_true_iff, !Nat.ltb_lt, negb_true_iff.
    assert (Hs : forall X : gset string, (0 < size X)%nat <-> X <> ∅).
    { intros X. split.
      - intros H HX. subst X. rewrite size_empty in H. lia.
      - intros H. destruct (size X) eqn:E; [|lia].
        apply size_empty_iff in E. exfalso. apply H. apply leibniz_equiv. exact E. }
    rewrite Hs.
    destruct (LinkQueue.queue q); simpl; split; intuition (try lia; try congruence). }
  split; [exact Hq|].
  intros ops. pose proof (run_processing ops LinkQueue.init) as Hp.
  pose proof (run_queue_complete ops LinkQueue.init) as Hc.
  destruct (LinkQueue.run LinkQueue.init ops) as [q log]. simpl in *.
  rewrite <- not_true_iff_false, Hq.
  split.
  - intros H. split; [|split].
    + destruct (LinkQueue.queue q); [reflexivity|]. exfalso. apply H. left. congruence.
    + destruct (LinkQueue.isComplete q) eqn:E.
      * destruct (proj1 Hc eq_refl) as [E'|E']; [discriminate|exact E'].
      * exfalso. apply H. right. left. reflexivity.
    + intros x. apply not_true_iff_false. intros Hx.
      apply H. right. right. intros He.
      assert (x ∈ LinkQueue.processing q) as Hin.
      { apply Hp. destruct (existsb _ log) eqn:Ex; [exact Hx|].
        exfalso. clear -Hx Ex. induction log as [|e log IHl]; [discriminate|].
        simpl in *. apply orb_false_iff in Ex as [Em Ex].
        rewrite Ex, Em in Hx. discriminate. }
      rewrite He in Hin. set_solver.
  - intros [Hnil [Hmc Hout]] [H|[H|H]].
    + congruence.
    + assert (LinkQueue.isComplete q = true) by (apply Hc; right; exact Hmc).
      congruence.
    + apply H. apply set_eq. intros x. split; [|set_solver].
      intros Hx. apply Hp in Hx.
      destruct (existsb _ log).
      * rewrite Hout in Hx. discriminate.
      * simpl in Hx. set_solver.
Qed.

(** C5, counterexample: with [processed = 0] and [failed = 5], the guard
    [if (this.stats.processed === 0) return maxBatchSize] skips the
    shrinking, and [getBatch(10)] on twelve pending urls returns 10 items,
    not the 8 that a success rate of 0 would give. *)
Lemma getBatch_no_shrink_before_first_success :
  let q := LinkQueue.mk ["u1"; "u2"; "u3"; "u4"; "u5"; "u6"; "u7"; "u8"; "u9"; "u10"; "u11"; "u12"]
             ∅ false (LinkQueue.mkStats 0 5 0) in
  length (fst (LinkQueue.getBatch q 10)) = 10%nat /\
  length (fst (LinkQueue.getBatch q 10)) <> 8%nat.
Proof. split; vm_compute; [reflexivity|discriminate]. Qed.

(** C5, as the code does it: while [processed = 0] (whatever [failed]
    is) [getBatch(maxSize)] returns [min(maxSize, pending.length)] items
    (none for [maxSize <= 0]). Otherwise, for [1 <= maxSize <= 2^50] and
    [processed + failed <= 2^50], the size starts at [maxSize], is shrunk
    to [max(1, floor(size * 0.8))] when [processed / (processed + failed) < 0.8],
    then to [max(1, Math.floor(size * 0.7))] when the in-flight count
    exceeds [2 * maxSize], and is capped at the pending length. On doubles
    the first floor is [floor(4 * size / 5)]; the second is
    [floor(7 * size / 10)] except for [size = 10 * q] with
    [2^log2(7 * q) < 4 * q], where it is [7 * q - 1]. *)
Theorem getBatch_adaptive_size (q : LinkQueue.t) (n : Z)
    (Hp : 0 <= LinkQueue.processed (LinkQueue.stats q))
    (Hf : 0 <= LinkQueue.failed (LinkQueue.stats q)) :
  let p := LinkQueue.processed (LinkQueue.stats q) in
  let f := LinkQueue.failed (LinkQueue.stats q) in
  let load := Z.of_nat (size (LinkQueue.processing q)) in
  let pending := Z.of_nat (length (LinkQueue.queue q)) in
  let floor07 (s : Z) :=
    if Z.eqb (s mod 10) 0 then
      (if Z.ltb (2 ^ Z.log2 (7 * (s / 10))) (4 * (s / 10))
       then 7 * (s / 10) - 1 else 7 * (s / 10))
    else s * 7 / 10 in
  let size1 := if Z.ltb (5 * p) (4 * (p + f)) then Z.max 1 (n * 4 / 5) else n in
  let size2 := if Z.gtb load (n * 2) then Z.max 1 (floor07 size1) else size1 in
  (p = 0 -> Z.of_nat (length (fst (LinkQueue.getBatch q n))) = Z.max 0 (Z.min n pending)) /\
  (0 < p -> p + f <= 2 ^ 50 -> 1 <= n <= 2 ^ 50 ->
   Z.of_nat (length (fst (LinkQueue.getBatch q n))) = Z.min size2 pending).
Proof.
  cbv beta zeta. rewrite getBatch_length. unfold LinkQueue.calculateAdaptiveBatchSize.
  cbv zeta.
  destruct (Z.eqb_spec (LinkQueue.processed (LinkQueue.stats q)) 0) as [E|E].
  { split; [reflexivity|lia]. }
  split; [lia|]. intros Hp0 Hpf Hn.
  rewrite binary64_rate by lia.
  destruct (Z.ltb_spec (5 * LinkQueue.processed (LinkQueue.stats q))
                       (4 * (LinkQueue.processed (LinkQueue.stats q) +
                             LinkQueue.failed (LinkQueue.stats q)))).
  - rewrite binary64_floor_0_8 by lia.
    assert (H45 : n * 4 / 5 <= n) by (apply Z.div_le_upper_bound; lia).
    assert (Hs : 1 <= Z.max 1 (n * 4 / 5) <= 2 ^ 50) by lia.
    destruct (Z.gtb _ _); [|lia].
    rewrite (binary64_floor_0_7 _ Hs). lia.
  - destruct (Z.gtb _ _); [|lia].
    rewrite (binary64_floor_0_7 _ Hn). lia.
Qed.

Lemma getBatch_adaptive_size_witness :
  let q := LinkQueue.mk (map (fun i => "p" +:+ pretty (N.of_nat i)) (seq 0 100))
             (list_to_set (map (fun i => "f" +:+ pretty (N.of_nat i)) (seq 0 181)))
             false (LinkQueue.mkStats 1 0 0) in
  0 <= LinkQueue.processed (LinkQueue.stats q) /\
  0 <= LinkQueue.failed (LinkQueue.stats q) /\
  0 < LinkQueue.processed (LinkQueue.stats q) /\
  LinkQueue.processed (LinkQueue.stats q) + LinkQueue.failed (LinkQueue.stats q) <= 2 ^ 50 /\
  1 <= 90 <= 2 ^ 50 /\
  Z.of_nat (length (fst (LinkQueue.getBatch q 90))) = 62.
Proof.
  intros q. split; [simpl; lia|]. split; [simpl; lia|].
  split; [simpl; lia|]. split; [simpl; lia|]. split; [lia|].
  destruct (getBatch_adaptive_size q 90 ltac:(simpl; lia) ltac:(simpl; lia)) as [_ H].
  rewrite (H ltac:(simpl; lia) ltac:(simpl; lia) ltac:(lia)).
  vm_compute. reflexivity.
Defined.

(** C7, counterexample: [getBatch(0)] after one success and one failure
    returns one item: the floor to at least 1 exceeds [n = 0]. *)
Lemma getBatch_zero_returns_one :
  fst (LinkQueue.getBatch (LinkQueue.mk ["a"] ∅ false (LinkQueue.mkStats 1 1 0)) 0) = ["a"].
Proof. vm_compute. reflexivity. Qed.

(** C7, for the batch sizes the configuration admits ([maxConcurrent >= 1]):
    [getBatch(n)] returns at most [n] items, which are a prefix of pending
    removed from it, and puts them in flight in the same step, leaving the
    flag and the statistics alone; on an empty pending list it returns
    nothing and leaves the queue as it was. *)
Theorem getBatch_fifo_bound (q : LinkQueue.t) (n : Z) (Hn : 1 <= n) :
  let '(batch, q') := LinkQueue.getBatch q n in
  (length batch <= Z.to_nat n)%nat /\
  batch ++ LinkQueue.queue q' = LinkQueue.queue q /\
  LinkQueue.processing q' = LinkQueue.processing q ∪ list_to_set batch /\
  LinkQueue.isComplete q' = LinkQueue.isComplete q /\
  LinkQueue.stats q' = LinkQueue.stats q /\
  (LinkQueue.queue q = [] -> batch = [] /\ q' = q).
Proof.
  pose proof (adaptive_le_max q n Hn) as Hle.
  unfold LinkQueue.getBatch, LinkQueue.splice0. simpl.
  split; [rewrite length_take; lia|].
  split; [apply take_drop|].
  split; [reflexivity|]. split; [reflexivity|]. split; [reflexivity|].
  intros Hnil. rewrite Hnil, take_nil, drop_nil. split; [reflexivity|].
  destruct q as [qu pr ic st]. simpl in *. subst qu.
  f_equal. set_solver.
Qed.

Lemma getBatch_fifo_bound_witness :
  1 <= 2 /\
  fst (LinkQueue.getBatch (LinkQueue.mk ["a"; "b"; "c"] ∅ false (LinkQueue.mkStats 0 0 0)) 2)
    = ["a"; "b"] /\
  (let '(batch, q') :=
     LinkQueue.getBatch (LinkQueue.mk ["a"; "b"; "c"] ∅ false (LinkQueue.mkStats 0 0 0)) 2 in
   (length batch <= Z.to_nat 2)%nat /\
   batch ++ LinkQueue.queue q' = ["a"; "b"; "c"]).
Proof.
  split; [lia|]. split; [vm_compute; reflexivity|].
  pose proof (getBatch_fifo_bound
    (LinkQueue.mk ["a"; "b"; "c"] ∅ false (LinkQueue.mkStats 0 0 0)) 2 ltac:(lia)) as H.
  destruct (LinkQueue.getBatch _ 2) as [batch q'].
  destruct H as [H1 [H2 _]]. split; assumption.
Defined.

(** ** The collection loop *)

Lemma loop_keeps_flag (E : LinkScraper.env) (fuel : nat) (url : string) (q : LinkQueue.t) :
  LinkQueue.isComplete (snd (LinkScraper.loop E fuel url q)) = LinkQueue.isComplete q.
Proof.
  revert url q. induction fuel as [|fuel IH]; intros url q; simpl; [reflexivity|].
  destruct (LinkScraper.fetchPage E url) as [content|e]; [|reflexivity].
  destruct (LinkScraper.extractLinks E content url) as [[|l ls]|e]; try reflexivity.
  destruct (LinkScraper.extractNextPageUrl E content url) as [[next|]|e];
    [rewrite IH| |]; reflexivity.
Qed.

(** C3, counterexample: when the first page fetch fails, [scrapeBookLinks]
    rejects with that error while the queue's completion flag is still
    unset. *)
Lemma scrapeBookLinks_error_leaves_incomplete :
  let E := LinkScraper.mkEnv (Ok tt)
             (fun url => Throw (NetworkError url None))
             (fun _ => Ok []) (fun _ => Ok None) "https://site" "/list" in
  let r := LinkScraper.scrapeBookLinks E 5 LinkQueue.init in
  LinkScraper.result r = Some (Throw (NetworkError "https://site/list" None)) /\
  LinkQueue.isComplete (LinkScraper.finalQueue r) = false /\
  LinkScraper.browserClosed r = true.
Proof. repeat split; reflexivity. Qed.

(** C3, as the code does it: [markComplete()] runs only when the loop
    ends by a [break] (a page without links, or no next page); when
    [initialize], a page fetch or a parse throws, the error surfaces with
    the completion flag as it was. The browser is closed on every exit. *)
Theorem scrapeBookLinks_exit_paths (E : LinkScraper.env) (fuel : nat) (q : LinkQueue.t) :
  let r := LinkScraper.scrapeBookLinks E fuel q in
  match LinkScraper.result r with
  | Some (Ok _) =>
      LinkQueue.isComplete (LinkScraper.finalQueue r) = true /\
      LinkScraper.browserClosed r = true
  | Some (Throw _) =>
      LinkQueue.isComplete (LinkScraper.finalQueue r) = LinkQueue.isComplete q /\
      LinkScraper.browserClosed r = true
  | None => LinkScraper.browserClosed r = false
  end.
Proof.
  unfold LinkScraper.scrapeBookLinks.
  destruct (LinkScraper.initialize E); simpl; [|split; reflexivity].
  pose proof (loop_keeps_flag E fuel (LinkScraper.baseUrl E +:+ LinkScraper.bookListPath E) q) as H.
  destruct (LinkScraper.loop E fuel _ q) as [[[x|e]|] q'] eqn:Hl; simpl in *;
    repeat split; auto.
Qed.

(** ** Navigation *)
Section Navigation.
Import Browser.

Lemma nav_loop_success (m : Z) (env : nav_env) :
  forall (f : nat) (a k : Z) (last : js_error),
  a + Z.of_nat f = m + 1 -> a <= k -> k < a + Z.of_nat f ->
  (forall i, a <= i < k -> attempt_error env i <> None) ->
  attempt_error env k = None ->
  nav_loop m env a last f =
    (flat_map (failed_attempt_effects m) (seqZ a (k - a)) ++ [Token], Ok tt).
Proof.
  induction f as [|f IH]; intros a k last Hf Hak Hk Hfail Hok; [lia|].
  cbn [nav_loop].
  destruct (Z.eq_dec k a) as [->|Hne].
  - rewrite Hok, Z.sub_diag, seqZ_nil by lia. reflexivity.
  - destruct (attempt_error env a) as [e|] eqn:Ea.
    + rewrite (IH (a + 1) k e) by first [lia | assumption | intros i Hi; apply Hfail; lia].
      rewrite (seqZ_cons a (k - a)) by lia. simpl.
      replace (Z.succ a) with (a + 1) by lia.
      replace (Z.pred (k - a)) with (k - (a + 1)) by lia.
      rewrite app_assoc. reflexivity.
    + exfalso. apply (Hfail a); [lia|exact Ea].
Qed.

Lemma nav_loop_exhausted (m : Z) (env : nav_env) (e : js_error) :
  forall (f : nat) (a : Z) (last : js_error),
  a + Z.of_nat f = m + 1 -> a <= m ->
  (forall i, a <= i < m -> attempt_error env i <> None) ->
  attempt_error env m = Some e ->
  nav_loop m env a last f =
    (flat_map (failed_attempt_effects m) (seqZ a (Z.of_nat f)), Throw e).
Proof.
  induction f as [|f IH]; intros a last Hf Ham Hfail Hm; [lia|].
  cbn [nav_loop].
  destruct (Z.eq_dec a m) as [->|Hne].
  - assert (f = 0%nat) as -> by lia.
    rewrite Hm. change (Z.of_nat 1) with 1.
    rewrite (seqZ_cons m 1), seqZ_nil by lia. simpl.
    rewrite !app_nil_r. reflexivity.
  - destruct (attempt_error env a) as [e'|] eqn:Ea.
    + rewrite (IH (a + 1) e') by first [lia | assumption | intros i Hi; apply Hfail; lia].
      rewrite (seqZ_cons a (Z.of_nat (S f))) by lia. simpl.
      replace (Z.succ a) with (a + 1) by lia.
      replace (Z.pred (Z.of_nat (S f))) with (Z.of_nat f) by lia.
      reflexivity.
    + exfalso. apply (Hfail a); [lia|exact Ea].
Qed.

End Navigation.

(** C6, counterexample: with the default of three attempts all failing
    with a timeout, [executeOperation(op, "u")] takes three tokens, waits
    2000 and 4000 ms, and rejects with the timeout error itself, not with a
    [NetworkError] for the url. *)
Lemma executeOperation_rethrows_raw_error :
  let res := Browser.executeOperation (Ok tt) (Ok 0%Z) (Some "u") None
               (fun _ => (false, Some (JsError "timeout"))) in
  res = ([Browser.Token; Browser.Sleep 2000; Browser.Token; Browser.Sleep 4000; Browser.Token],
         Throw (JsError "timeout")) /\
  (forall cause, snd res <> Throw (NetworkError "u" cause)).
Proof.
  cbv zeta. split; [reflexivity|]. intros cause. simpl. discriminate.
Qed.

(** C6, as the code does it: with a non-empty url, [executeOperation] navigates
    with up to [maxRetries] attempts ([3] when unset), one rate-limit token
    per attempt and a wait of [min(1000 * 2^attempt, 10000)] ms after each
    failed attempt but the last; a closed page fails its attempt. The first
    successful attempt hands over to the operation; when every attempt
    fails, the last attempt's error is rethrown unchanged and the operation
    is not run. The empty url skips navigation, as [if (url)] does. *)
Theorem executeOperation_navigation {A : Type} (m : Z) (Hm : 1 <= m)
    (env : Browser.nav_env) (operation : outcome A) (u : string)
    (Hu : u <> EmptyString) :
  Browser.executeOperation (Ok tt) operation (Some u) None env =
    Browser.executeOperation (Ok tt) operation (Some u) (Some 3) env /\
  (forall i, fst (env i) = true ->
     Browser.attempt_error env i = Some (JsError "Page was closed before navigation")) /\
  (forall k, 1 <= k <= m ->
     (forall i, 1 <= i < k -> Browser.attempt_error env i <> None) ->
     Browser.attempt_error env k = None ->
     Browser.executeOperation (Ok tt) operation (Some u) (Some m) env =
       (flat_map (Browser.failed_attempt_effects m) (seqZ 1 (k - 1)) ++ [Browser.Token],
        operation)) /\
  (forall e,
     (forall i, 1 <= i < m -> Browser.attempt_error env i <> None) ->
     Browser.attempt_error env m = Some e ->
     Browser.executeOperation (Ok tt) operation (Some u) (Some m) env =
       (flat_map (Browser.failed_attempt_effects m) (seqZ 1 m), Throw e)) /\
  (forall mr, Browser.executeOperation (Ok tt) operation (Some EmptyString) mr env =
     ([], operation)).
Proof.
  split; [reflexivity|]. split.
  { intros i Hc. unfold Browser.attempt_error. destruct (env i) as [c g].
    simpl in Hc. subst c. reflexivity. }
  split.
  - intros k Hk Hfail Hok. unfold Browser.executeOperation, Browser.navigateToUrl. simpl.
    rewrite (bool_decide_eq_false_2 _ Hu).
    rewrite (nav_loop_success m env (Z.to_nat m) 1 k JsNull) by (first [lia | assumption]).
    reflexivity.
  - split.
    + intros e Hfail He. unfold Browser.executeOperation, Browser.navigateToUrl. simpl.
      rewrite (bool_decide_eq_false_2 _ Hu).
      rewrite (nav_loop_exhausted m env e (Z.to_nat m) 1 JsNull) by (first [lia | assumption]).
      rewrite Z2Nat.id by lia. reflexivity.
    + intros mr. reflexivity.
Qed.

Lemma executeOperation_navigation_witness :
  1 <= 3 /\ "u" <> EmptyString /\
  Browser.executeOperation (Ok tt) (Ok 7%Z) (Some "u") (Some 3)
    (fun i => (false, if Z.ltb i 2 then Some (JsError "timeout") else None)) =
    ([Browser.Token; Browser.Sleep 2000; Browser.Token], Ok 7%Z).
Proof.
  split; [lia|]. split; [discriminate|].
  destruct (executeOperation_navigation 3 ltac:(lia)
              (fun i => (false, if Z.ltb i 2 then Some (JsError "timeout") else None))
              (Ok 7%Z) "u" ltac:(discriminate)) as [_ [_ [Hs _]]].
  rewrite (Hs 2); [reflexivity|lia| |reflexivity].
  intros i Hi. unfold Browser.attempt_error. simpl.
  destruct (Z.ltb_spec i 2); [discriminate|lia].
Defined.

(** ** The retry helper *)

(** C8: with [maxAttempts = 3], an operation failing on its first two
    calls and succeeding on the third makes [retry] return the third
    call's value; one failing on all three makes [retry] reject with a
    [ScrapingError] whose message reports 3 attempts, whose url is the
    context and whose cause is the last error. Either way the waits between
    attempts are [delayMs] and then [delayMs * backoffFactor]. *)
Theorem retry_three_attempts {A : Type} (operation : Z -> outcome A)
    (context : string) (d b : Q) :
  (forall e1 e2 v,
     operation 1 = Throw e1 -> operation 2 = Throw e2 -> operation 3 = Ok v ->
     Retry.retry operation (Retry.mkRetryConfig 3 d b) context = (Ok v, [d; (d * b)%Q])) /\
  (forall e1 e2 e3,
     operation 1 = Throw e1 -> operation 2 = Throw e2 -> operation 3 = Throw e3 ->
     Retry.retry operation (Retry.mkRetryConfig 3 d b) context =
       (Throw (ScrapingError (Retry.failedAfter 3 context) context (Some (Retry.asError e3))),
        [d; (d * b)%Q])) /\
  Retry.failedAfter 3 context = ("Failed after 3 attempts: " +:+ context)%string.
Proof.
  split; [|split].
  - intros e1 e2 v H1 H2 H3. unfold Retry.retry. cbv [Retry.maxAttempts Retry.delayMs].
    change (Z.to_nat 3) with 3%nat.
    cbn [Retry.retry_loop Retry.maxAttempts Retry.backoffFactor].
    rewrite H1. cbn. change (1 + 1) with 2. change (2 + 1) with 3.
    rewrite H2. cbn. rewrite H3. reflexivity.
  - intros e1 e2 e3 H1 H2 H3. unfold Retry.retry. cbv [Retry.maxAttempts Retry.delayMs].
    change (Z.to_nat 3) with 3%nat.
    cbn [Retry.retry_loop Retry.maxAttempts Retry.backoffFactor].
    rewrite H1. cbn. change (1 + 1) with 2. change (2 + 1) with 3.
    rewrite H2. cbn. rewrite H3. reflexivity.
  - reflexivity.
Qed.

Lemma retry_three_attempts_witness :
  Retry.retry (fun a : Z => if Z.ltb a 3 then @Throw Z (JsError "flaky") else Ok 42%Z)
    (Retry.mkRetryConfig 3 1000 2) "https://site/list" = (Ok 42%Z, [1000%Q; (1000 * 2)%Q]) /\
  Retry.retry (fun a : Z => @Throw Z (NonError "down"))
    (Retry.mkRetryConfig 3 1000 2) "https://site/list" =
    (Throw (ScrapingError "Failed after 3 attempts: https://site/list" "https://site/list"
              (Some (JsError "down"))), [1000%Q; (1000 * 2)%Q]).
Proof.
  destruct (retry_three_attempts (fun a : Z => if Z.ltb a 3 then @Throw Z (JsError "flaky") else Ok 42%Z)
              "https://site/list" 1000 2) as [Hok _].
  destruct (retry_three_attempts (fun a : Z => @Throw Z (NonError "down"))
              "https://site/list" 1000 2) as [_ [Hko Hmsg]].
  split.
  - apply (Hok (JsError "flaky") (JsError "flaky")); reflexivity.
  - rewrite (Hko (NonError "down") (NonError "down") (NonError "down")) by reflexivity.
    rewrite Hmsg. reflexivity.
Defined.

(** ** Batch processing in the detail loop *)
Section BatchFacts.
Import Details.

Lemma successfulResults_spec (pl : string -> outcome (option BookDetails))
    (links : list string) (d : BookDetails) :
  d ∈ successfulResults (map (fun v => to_result v (pl v)) links) <->
  exists v, v ∈ links /\ pl v = Ok (Some d).
Proof.
  induction links as [|v links IH]; simpl.
  - split; [intros H; inversion H|intros (w & Hw & _); inversion Hw].
  - unfold to_result at 1. destruct (pl v) as [[d'|]|e] eqn:Ev; simpl;
      rewrite ?elem_of_cons, IH; split.
    + intros [->|(w & Hw & Hd)]; [exists v; rewrite elem_of_cons; auto|].
      exists w. rewrite elem_of_cons. auto.
    + intros (w & Hw & Hd). rewrite elem_of_cons in Hw.
      destruct Hw as [->|Hw]; [left; congruence|right; eauto].
    + intros (w & Hw & Hd). exists w. rewrite elem_of_cons. auto.
    + intros (w & Hw & Hd). rewrite elem_of_cons in Hw.
      destruct Hw as [->|Hw]; [congruence|eauto].
    + intros (w & Hw & Hd). exists w. rewrite elem_of_cons. auto.
    + intros (w & Hw & Hd). rewrite elem_of_cons in Hw.
      destruct Hw as [->|Hw]; [congruence|eauto].
Qed.

Lemma failedUrls_spec (pl : string -> outcome (option BookDetails))
    (links : list string) (u : string) :
  u ∈ failedUrls (map (fun v => to_result v (pl v)) links) <->
  u ∈ links /\ exists e, pl u = Throw e.
Proof.
  induction links as [|v links IH]; simpl.
  - split; [intros H; inversion H|intros [H _]; inversion H].
  - unfold to_result at 1. destruct (pl v) as [[d'|]|e] eqn:Ev; simpl;
      rewrite ?elem_of_cons, IH; split.
    + intros [Hu He]. split; [right; exact Hu|exact He].
    + intros [[->|Hu] [e He]]; [congruence|eauto].
    + intros [Hu He]. split; [right; exact Hu|exact He].
    + intros [[->|Hu] [e' He]]; [congruence|eauto].
    + intros [->|[Hu He]]; [split; [left; reflexivity|eauto]|split; [right; exact Hu|exact He]].
    + intros [[->|Hu] He]; [left; reflexivity|right; auto].
Qed.

(** A batch with a failed url is reported as failed as a whole, whether
    or not its records were saved. *)
Lemma processBatch_failed_stats (pl : string -> outcome (option BookDetails))
    (save : list BookDetails -> outcome unit) (links : list string)
    (q : LinkQueue.t) (elapsed : Q) (u : string) (e : js_error) :
  u ∈ links -> pl u = Throw e ->
  let q' := snd (processBatch pl save links q elapsed) in
  LinkQueue.stats q' =
    LinkQueue.mkStats (LinkQueue.processed (LinkQueue.stats q))
      (LinkQueue.failed (LinkQueue.stats q) + Z.of_nat (length links))
      (LinkQueue.avgProcessingTime (LinkQueue.stats q)) /\
  LinkQueue.processing q' = LinkQueue.processing q ∖ list_to_set links.
Proof.
  intros Hu He. cbv zeta.
  assert (Hf : Nat.eqb (length (failedUrls (map (fun v => to_result v (pl v)) links))) 0 = false).
  { apply Nat.eqb_neq. intros H0. apply length_zero_iff_nil in H0.
    assert (u ∈ failedUrls (map (fun v => to_result v (pl v)) links)) as Hin
      by (apply failedUrls_spec; eauto).
    rewrite H0 in Hin. inversion Hin. }
  unfold processBatch. rewrite Hf.
  destruct (successfulResults _) as [|d ds]; [simpl; split; reflexivity|].
  destruct (save (d :: ds)); simpl; split; reflexivity.
Qed.

(** A batch without failed urls whose records are saved is reported as
    processed as a whole. *)
Lemma processBatch_ok_stats (pl : string -> outcome (option BookDetails))
    (save : list BookDetails -> outcome unit) (links : list string)
    (q : LinkQueue.t) (elapsed : Q) :
  (forall v, v ∈ links -> exists x, pl v = Ok x) ->
  (forall bs, save bs = Ok tt) ->
  let q' := snd (processBatch pl save links q elapsed) in
  LinkQueue.processed (LinkQueue.stats q') =
    LinkQueue.processed (LinkQueue.stats q) + Z.of_nat (length links) /\
  LinkQueue.failed (LinkQueue.stats q') = LinkQueue.failed (LinkQueue.stats q).
Proof.
  intros Hok Hsave. cbv zeta.
  assert (Hf : failedUrls (map (fun v => to_result v (pl v)) links) = []).
  { destruct (failedUrls _) as [|w ws] eqn:E; [reflexivity|].
    assert (w ∈ failedUrls (map (fun v => to_result v (pl v)) links)) as Hin
      by (rewrite E; left).
    apply failedUrls_spec in Hin as [Hw [e He]].
    destruct (Hok w Hw) as [x Hx]. congruence. }
  unfold processBatch. rewrite Hf. simpl.
  destruct (successfulResults _) as [|d ds]; [simpl; split; reflexivity|].
  rewrite Hsave. simpl. split; reflexivity.
Qed.

Lemma processBatch_written (pl : string -> outcome (option BookDetails))
    (save : list BookDetails -> outcome unit) (links : list string)
    (q : LinkQueue.t) (elapsed : Q) (batch : list BookDetails) :
  batch ∈ snd (fst (processBatch pl save links q elapsed)) ->
  batch = successfulResults (map (fun v => to_result v (pl v)) links).
Proof.
  unfold processBatch.
  destruct (successfulResults _) as [|d ds] eqn:E; simpl; [intros H; inversion H|].
  destruct (save (d :: ds)); simpl; intros H.
  - apply list_elem_of_singleton in H. exact H.
  - inversion H.
Qed.

End BatchFacts.

(** C9: when one url of a batch fails, [markProcessed] is called once
    with [success = false] for the whole batch: every url of the batch is
    counted into [failed], none into [processed], and the moving average
    is left as it was, while the records extracted for the other urls of
    the batch have been written to the sink when the save succeeded. *)
Theorem processBatch_one_failure_fails_batch
    (pl : string -> outcome (option Details.BookDetails))
    (save : list Details.BookDetails -> outcome unit) (links : list string)
    (q : LinkQueue.t) (elapsed : Q) (u : string) (e : js_error)
    (Hu : u ∈ links) (He : pl u = Throw e) :
  let '(_, written, q') := Details.processBatch pl save links q elapsed in
  LinkQueue.processed (LinkQueue.stats q') = LinkQueue.processed (LinkQueue.stats q) /\
  LinkQueue.failed (LinkQueue.stats q') =
    LinkQueue.failed (LinkQueue.stats q) + Z.of_nat (length links) /\
  LinkQueue.avgProcessingTime (LinkQueue.stats q') =
    LinkQueue.avgProcessingTime (LinkQueue.stats q) /\
  (save (Details.successfulResults (map (fun v => Details.to_result v (pl v)) links)) = Ok tt ->
   forall v d, v ∈ links -> pl v = Ok (Some d) ->
   exists batch, batch ∈ written /\ d ∈ batch).
Proof.
  pose proof (processBatch_failed_stats pl save links q elapsed u e Hu He) as [Hs _].
  destruct (Details.processBatch pl save links q elapsed) as [[r written] q'] eqn:Hpb.
  simpl in Hs. rewrite Hs. simpl. split; [reflexivity|]. split; [reflexivity|].
  split; [reflexivity|].
  intros Hsave v d Hv Hd.
  assert (Hin : d ∈ Details.successfulResults (map (fun v => Details.to_result v (pl v)) links))
    by (apply successfulResults_spec; eauto).
  unfold Details.processBatch in Hpb.
  destruct (Details.successfulResults _) as [|d0 ds]; [inversion Hin|].
  rewrite Hsave in Hpb. inversion Hpb; subst.
  exists (d0 :: ds). split; [left|exact Hin].
Qed.

Lemma processBatch_one_failure_fails_batch_witness :
  let pl := fun v : string =>
    if bool_decide (v = "bad") then Throw (JsError "timeout")
    else Ok (Some (Details.mkDetails "T" "A" 3 v 0)) in
  "bad" ∈ ["good"; "bad"] /\ pl "bad" = Throw (JsError "timeout") /\
  LinkQueue.failed (LinkQueue.stats
    (snd (Details.processBatch pl (fun _ => Ok tt) ["good"; "bad"] LinkQueue.init 10))) = 2.
Proof.
  cbv zeta. split; [right; left|]. split; [reflexivity|].
  pose proof (processBatch_one_failure_fails_batch
    (fun v : string => if bool_decide (v = "bad") then Throw (JsError "timeout")
                       else Ok (Some (Details.mkDetails "T" "A" 3 v 0)))
    (fun _ => Ok tt) ["good"; "bad"] LinkQueue.init 10 "bad" (JsError "timeout")
    ltac:(right; left) eq_refl) as H.
  destruct (Details.processBatch _ _ _ _ _) as [[r written] q'].
  destruct H as [_ [Hf _]]. simpl. rewrite Hf. reflexivity.
Defined.

(** ** Detail extraction *)
Section ExtractionFacts.
Import Details.

Lemma retry_loop_ok {A : Type} (cfg : Retry.RetryConfig) (op : Z -> outcome A)
    (ctx : string) :
  forall (f : nat) (a : Z) (dl : Q) (x : A),
  fst (Retry.retry_loop cfg op ctx a dl f) = Ok x -> exists i, op i = Ok x.
Proof.
  induction f as [|f IH]; intros a dl x H; simpl in H; [discriminate|].
  destruct (op a) as [v|err] eqn:Ea.
  - simpl in H. inversion H; subst. eauto.
  - destruct (Z.eqb a (Retry.maxAttempts cfg)); [discriminate|].
    destruct (Retry.retry_loop cfg op ctx (a + 1) _ f) as [r ds] eqn:Er.
    simpl in H. subst r. apply (IH (a + 1) (dl * Retry.backoffFactor cfg)%Q).
    rewrite Er. reflexivity.
Qed.

Lemma executeOperation_ok {A : Type} (gp : outcome unit) (op : outcome A)
    (url : option string) (cm : option Z) (env : Browser.nav_env) (x : A) :
  snd (Browser.executeOperation gp op url cm env) = Ok x -> op = Ok x.
Proof.
  unfold Browser.executeOperation.
  destruct gp; [|discriminate]. destruct url as [u|]; [|auto].
  case_bool_decide; [auto|].
  destruct (Browser.navigateToUrl cm env) as [effs [[]|e]]; simpl; [auto|discriminate].
Qed.

Lemma extractBookDetails_url (pg : DetailPage) (v : string) (now : Z) (d : BookDetails) :
  extractBookDetails pg v now = Ok (Some d) -> url d = v.
Proof.
  unfold extractBookDetails.
  destruct (titleEval pg) as [t|e]; [|discriminate].
  destruct (authorEval pg) as [a|e]; [|discriminate].
  destruct (recommendationsEval pg) as [[h c]|e]; [|discriminate].
  destruct (bool_decide (t = "") || bool_decide (a = "")); [discriminate|].
  destruct (Z.eqb _ 0); [discriminate|].
  intros H. inversion H. reflexivity.
Qed.

Lemma processLink_url (cm : option Z) (attempts : Z -> attempt_env) (v : string)
    (now : Z) (d : BookDetails) :
  processLink cm attempts v now = Ok (Some d) -> url d = v.
Proof.
  unfold processLink, Retry.retry. intros H.
  apply retry_loop_ok in H as [i Hi].
  apply executeOperation_ok in Hi. apply extractBookDetails_url in Hi. exact Hi.
Qed.

(** When the first attempt gets a page and navigates, [processLink]
    settles with what extraction gives on that page, if it succeeds. *)
Lemma processLink_first_attempt (cm : option Z) (attempts : Z -> attempt_env)
    (u : string) (now : Z) (x : option BookDetails) :
  1 <= default 3 cm ->
  getPageResult (attempts 1) = Ok tt ->
  Browser.attempt_error (navigation (attempts 1)) 1 = None ->
  extractBookDetails (page (attempts 1)) u now = Ok x ->
  processLink cm attempts u now = Ok x.
Proof.
  intros Hm Hg Hn Hx.
  unfold processLink, Retry.retry. cbv [processLinkRetryConfig Retry.maxAttempts Retry.delayMs].
  change (Z.to_nat 3) with 3%nat. cbn [Retry.retry_loop].
  unfold Browser.executeOperation. rewrite Hg.
  case_bool_decide; [rewrite Hx; reflexivity|].
  unfold Browser.navigateToUrl.
  rewrite (nav_loop_success (default 3 cm) (navigation (attempts 1))
             (Z.to_nat (default 3 cm)) 1 1 JsNull) by (first [lia | assumption]).
  rewrite Hx. reflexivity.
Qed.

End ExtractionFacts.

(** C10, counterexample: a page whose header does not start with
    "To βιβλίο" makes extraction return [null], but when another url of
    the same batch fails, the skipped url is counted into [failed] with
    the whole batch, and nothing into [processed]. *)
Lemma skipped_url_counted_failed_with_batch :
  let pageNull := Details.mkPage (Ok "Title") (Ok "Author") (Ok ("Other header", 3)) in
  let pageBad := Details.mkPage (Throw (JsError "no title")) (Ok "Author")
                   (Ok (Details.recommendationsPrefix, 3)) in
  let attempts := fun (v : string) (_ : Z) =>
    Details.mkAttempt (Ok tt) (fun _ => (false, None))
      (if bool_decide (v = "u1") then pageNull else pageBad) in
  let pl := fun v => Details.processLink None (attempts v) v 0 in
  let q' := snd (Details.processBatch pl (fun _ => Ok tt) ["u1"; "u2"] LinkQueue.init 10) in
  Details.extractBookDetails pageNull "u1" 0 = Ok None /\
  LinkQueue.processed (LinkQueue.stats q') = 0 /\
  LinkQueue.failed (LinkQueue.stats q') = 2.
Proof. vm_compute. repeat split; reflexivity. Qed.

(** C10, as the code does it: for a page with a non-empty title and
    author whose recommendations header does not start with "To βιβλίο" or
    whose count ([children.length - 1]) is 0, extraction returns [null].
    When the first attempt reaches that page, [processLink] settles with
    [null]; in the batch no record for the url is written, and the url is
    a skipped success: it is counted into [processed] with its batch when
    no url of the batch fails and the records are saved, and into [failed]
    with its batch when another url fails. *)
Theorem extract_null_is_skipped_success (pg : Details.DetailPage) (u : string) (now : Z)
    (title author header : string) (children : Z)
    (Ht : Details.titleEval pg = Ok title) (Ha : Details.authorEval pg = Ok author)
    (Hr : Details.recommendationsEval pg = Ok (header, children))
    (Hne : title <> "" /\ author <> "")
    (Hz : String.prefix Details.recommendationsPrefix header = false \/ children - 1 = 0) :
  Details.extractBookDetails pg u now = Ok None /\
  (forall (cm : option Z) (attempts : string -> Z -> Details.attempt_env)
          (save : list Details.BookDetails -> outcome unit) (links : list string)
          (q : LinkQueue.t) (elapsed : Q),
   1 <= default 3 cm ->
   Details.getPageResult (attempts u 1) = Ok tt ->
   Browser.attempt_error (Details.navigation (attempts u 1)) 1 = None ->
   Details.page (attempts u 1) = pg ->
   u ∈ links ->
   let pl := fun v => Details.processLink cm (attempts v) v now in
   let '(_, written, q') := Details.processBatch pl save links q elapsed in
   pl u = Ok None /\
   (forall batch d, batch ∈ written -> d ∈ batch -> Details.url d <> u) /\
   ((forall v, v ∈ links -> exists x, pl v = Ok x) -> (forall bs, save bs = Ok tt) ->
    LinkQueue.processed (LinkQueue.stats q') =
      LinkQueue.processed (LinkQueue.stats q) + Z.of_nat (length links) /\
    LinkQueue.failed (LinkQueue.stats q') = LinkQueue.failed (LinkQueue.stats q)) /\
   (forall v e, v ∈ links -> pl v = Throw e ->
    LinkQueue.processed (LinkQueue.stats q') = LinkQueue.processed (LinkQueue.stats q) /\
    LinkQueue.failed (LinkQueue.stats q') =
      LinkQueue.failed (LinkQueue.stats q) + Z.of_nat (length links))).
Proof.
  assert (Hnull : Details.extractBookDetails pg u now = Ok None).
  { unfold Details.extractBookDetails. rewrite Ht, Ha, Hr.
    destruct Hne as [Ht' Ha'].
    rewrite (bool_decide_eq_false_2 _ Ht'), (bool_decide_eq_false_2 _ Ha'). simpl.
    destruct Hz as [Hp|Hc].
    - rewrite Hp. reflexivity.
    - destruct (String.prefix _ _); [rewrite Hc|]; reflexivity. }
  split; [exact Hnull|].
  intros cm attempts save links q elapsed Hm Hg Hn Hp Hu. cbv zeta.
  assert (Hpl : Details.processLink cm (attempts u) u now = Ok None).
  { apply processLink_first_attempt; [exact Hm|exact Hg|exact Hn|rewrite Hp; exact Hnull]. }
  pose proof (processBatch_ok_stats (fun v => Details.processLink cm (attempts v) v now)
                save links q elapsed) as Hok.
  pose proof (processBatch_written (fun v => Details.processLink cm (attempts v) v now)
                save links q elapsed) as Hw.
  pose proof (processBatch_failed_stats (fun v => Details.processLink cm (attempts v) v now)
                save links q elapsed) as Hfail.
  destruct (Details.processBatch _ save links q elapsed) as [[r written] q'] eqn:Hpb.
  simpl in Hok, Hw, Hfail.
  split; [exact Hpl|]. split; [|split].
  - intros batch d Hb Hd Hud. apply Hw in Hb. subst batch.
    apply successfulResults_spec in Hd as (v & Hv & Hdv).
    pose proof (processLink_url cm (attempts v) v now d Hdv) as Hurl.
    subst v. rewrite Hud in Hdv. congruence.
  - intros Hall Hsave. apply Hok; assumption.
  - intros v e Hv He. destruct (Hfail v e Hv He) as [Hs _]. rewrite Hs. simpl. split; reflexivity.
Qed.

Lemma extract_null_is_skipped_success_witness :
  let pg := Details.mkPage (Ok "Title") (Ok "Author") (Ok ("Other header", 3)) in
  Details.titleEval pg = Ok "Title" /\ Details.authorEval pg = Ok "Author" /\
  Details.recommendationsEval pg = Ok ("Other header", 3) /\
  ("Title" <> "" /\ "Author" <> "") /\
  (String.prefix Details.recommendationsPrefix "Other header" = false \/ 3 - 1 = 0) /\
  Details.extractBookDetails pg "u1" 0 = Ok None.
Proof.
  cbv zeta. split; [reflexivity|]. split; [reflexivity|]. split; [reflexivity|].
  assert (Hne : "Title" <> "" /\ "Author" <> "") by (split; discriminate).
  assert (Hz : String.prefix Details.recommendationsPrefix "Other header" = false \/ 3 - 1 = 0)
    by (left; reflexivity).
  split; [exact Hne|]. split; [exact Hz|].
  exact (proj1 (extract_null_is_skipped_success
    (Details.mkPage (Ok "Title") (Ok "Author") (Ok ("Other header", 3))) "u1" 0
    "Title" "Author" "Other header" 3 eq_refl eq_refl eq_refl Hne Hz)).
Defined.

(** ** Further properties of the crawl pipeline *)

Section StorageFacts.
Import Storage.

Lemma sapp_cons (c : Ascii.ascii) (a b : string) : String c a +:+ b = String c (a +:+ b).
Proof. reflexivity. Qed.

Lemma sapp_nil_l (b : string) : EmptyString +:+ b = b.
Proof. reflexivity. Qed.

Lemma sapp_assoc (a b c : string) : (a +:+ b) +:+ c = a +:+ (b +:+ c).
Proof. induction a as [|x a IH]; [reflexivity|]. rewrite !sapp_cons, IH. reflexivity. Qed.

Lemma sapp_nil_r (a : string) : a +:+ EmptyString = a.
Proof. induction a as [|x a IH]; [reflexivity|]. rewrite sapp_cons, IH. reflexivity. Qed.

Lemma slength_app (a b : string) :
  String.length (a +:+ b) = (String.length a + String.length b)%nat.
Proof. induction a as [|x a IH]; [reflexivity|]. rewrite sapp_cons. simpl. rewrite IH. reflexivity. Qed.


Lemma plain_cons (c : Ascii.ascii) (f : string) :
  plain (String c f) -> c <> dquote /\ c <> comma /\ c <> newline /\ plain f.
Proof.
  unfold plain. simpl. intros (H1 & H2 & H3).
  apply orb_false_iff in H1 as [H1 H1'], H2 as [H2 H2'], H3 as [H3 H3'].
  apply bool_decide_eq_false in H1, H2, H3. tauto.
Qed.

Lemma read_unquoted_plain (f t : string) :
  plain f ->
  read_unquoted (f +:+ t) = let '(g, x) := read_unquoted t in (f +:+ g, x).
Proof.
  induction f as [|c f IH]; intros Hp; [rewrite sapp_nil_l; destruct (read_unquoted t); reflexivity|].
  rewrite sapp_cons. simpl.
  apply plain_cons in Hp as (Hq & Hc & Hn & Hp).
  rewrite (bool_decide_eq_false_2 _ Hc), (bool_decide_eq_false_2 _ Hn).
  rewrite (IH Hp). destruct (read_unquoted t); reflexivity.
Qed.

Lemma read_quoted_replace (f t : string) :
  read_quoted (replaceQuotes f +:+ String dquote t) =
  option_map (fun p => (f +:+ fst p, snd p)) (read_quoted (String dquote t)).
Proof.
  remember (read_quoted (String dquote t)) as X eqn:HX.
  induction f as [|c f IH].
  - simpl replaceQuotes. rewrite sapp_nil_l, <- HX. destruct X as [[]|]; reflexivity.
  - simpl replaceQuotes. case_bool_decide as Hc.
    + subst c. rewrite !sapp_cons. simpl.
      repeat (rewrite bool_decide_eq_true_2 by reflexivity; simpl).
      rewrite IH. destruct X as [[]|]; reflexivity.
    + rewrite sapp_cons. simpl. rewrite (bool_decide_eq_false_2 _ Hc).
      rewrite IH. destruct X as [[]|]; reflexivity.
Qed.


Lemma read_unquoted_term (t : string) (x : option (bool * string)) :
  term_ok t x -> read_unquoted t = (EmptyString, x).
Proof. intros [[-> ->]|[[r [-> ->]]|[r [-> ->]]]]; reflexivity. Qed.

Lemma read_quoted_term (t : string) (x : option (bool * string)) :
  term_ok t x -> read_quoted (String dquote t) = Some (EmptyString, x).
Proof. intros [[-> ->]|[[r [-> ->]]|[r [-> ->]]]]; reflexivity. Qed.


Lemma encodes_plain (f : string) : plain f -> encodes f f.
Proof.
  intros Hp t x Ht. destruct f as [|c f'].
  - simpl. destruct Ht as [[-> ->]|[[r [-> ->]]|[r [-> ->]]]]; reflexivity.
  - pose proof (plain_cons c f' Hp) as (Hq & _ & _ & _).
    unfold read_field. rewrite sapp_cons. cbv beta iota.
    rewrite (bool_decide_eq_false_2 _ Hq). cbv beta iota. rewrite <- sapp_cons.
    rewrite (read_unquoted_plain _ _ Hp), (read_unquoted_term _ _ Ht), sapp_nil_r.
    reflexivity.
Qed.

Lemma encodes_escape (f : string) : encodes (escapeCsvField f) f.
Proof.
  unfold escapeCsvField.
  destruct (includes dquote f) eqn:E1; [|destruct (includes comma f) eqn:E2;
    [|destruct (includes newline f) eqn:E3]]; simpl;
    try (apply encodes_plain; unfold plain; tauto).
  all: intros t x Ht; unfold read_field; rewrite sapp_cons, sapp_assoc; unfold chr;
    rewrite sapp_cons, sapp_nil_l; cbv beta iota;
    rewrite bool_decide_eq_true_2 by reflexivity; cbv beta iota;
    rewrite read_quoted_replace, (read_quoted_term _ _ Ht); simpl;
    rewrite sapp_nil_r; reflexivity.
Qed.

Lemma pretty_N_go_plain (x : N) (s : string) : plain s -> plain (pretty_N_go x s).
Proof.
  revert s. induction x as [x IH] using (well_founded_induction N.lt_wf_0). intros s Hs.
  destruct (decide (x = 0%N)) as [->|Hx]; [rewrite pretty_N_go_0; exact Hs|].
  rewrite pretty_N_go_step by lia. apply IH; [apply N.div_lt; lia|].
  unfold plain in *. simpl. rewrite !(proj1 Hs), !(proj1 (proj2 Hs)), !(proj2 (proj2 Hs)).
  rewrite !orb_false_r.
  unfold pretty_N_char. repeat case_match; split_and!; reflexivity.
Qed.

Lemma pretty_Z_plain (z : Z) : plain (pretty z).
Proof.
  assert (H : forall p : positive, plain (pretty p)).
  { intros p. unfold pretty, pretty_positive, pretty, pretty_N.
    rewrite decide_False by discriminate. apply pretty_N_go_plain.
    split_and!; reflexivity. }
  destruct z as [|p|p]; [split_and!; reflexivity|apply H|].
  destruct (H p) as (H1 & H2 & H3).
  change (plain ("-" +:+ pretty p)). unfold plain. rewrite sapp_cons, sapp_nil_l.
  cbn [includes]. rewrite H1, H2, H3. split_and!; reflexivity.
Qed.


Lemma concat_single (sep w : string) : String.concat sep [w] = w.
Proof. reflexivity. Qed.

Lemma concat_cons2 (sep w w' : string) (ws : list string) :
  String.concat sep (w :: w' :: ws) = w +:+ (sep +:+ String.concat sep (w' :: ws)).
Proof. reflexivity. Qed.

Lemma read_record (ws fs : list string) :
  Forall2 encodes ws fs -> ws <> [] ->
  forall (fuel : nat) (cur : list string) (rest : string),
  (length fs <= fuel)%nat ->
  read_records fuel (String.concat (chr comma) ws +:+ String newline rest) cur =
  match rest with
  | EmptyString => Some [cur ++ fs]
  | _ => option_map (fun recs => (cur ++ fs) :: recs) (read_records (fuel - length fs) rest [])
  end.
Proof.
  induction 1 as [|w f ws' fs' Hwf HF IH]; intros Hne fuel cur rest Hfuel; [congruence|].
  destruct fuel as [|fuel']; [simpl in Hfuel; lia|].
  destruct ws' as [|w' ws''].
  - inversion HF; subst. rewrite concat_single. cbn [read_records].
    rewrite (Hwf (String newline rest) (Some (false, rest))) by (right; right; eauto).
    simpl. rewrite Nat.sub_0_r. reflexivity.
  - rewrite concat_cons2, !sapp_assoc. unfold chr at 1. rewrite sapp_cons, sapp_nil_l.
    cbn [read_records].
    rewrite (Hwf _ (Some (true, String.concat (chr comma) (w' :: ws'') +:+ String newline rest)))
      by (right; left; eauto).
    rewrite (IH ltac:(discriminate) fuel' (cur ++ [f]) rest) by (simpl in Hfuel; lia).
    rewrite <- app_assoc. simpl. reflexivity.
Qed.

Lemma csvLine_fields (toISOString : Z -> string) (d : Details.BookDetails) :
  plain (toISOString (Details.scrapedAt d)) ->
  exists ws, csvLine toISOString d = String.concat (chr comma) ws /\
             Forall2 encodes ws (csvFields toISOString d) /\ ws <> [].
Proof.
  intros Hiso. eexists. split; [reflexivity|]. split; [|discriminate].
  repeat constructor; auto using encodes_escape, encodes_plain, pretty_Z_plain.
Qed.

Lemma csvLine_length (toISOString : Z -> string) (d : Details.BookDetails) :
  (4 <= String.length (csvLine toISOString d))%nat.
Proof.
  unfold csvLine. rewrite !concat_cons2, concat_single, !slength_app. simpl. lia.
Qed.

Lemma terminated_join (sep : Ascii.ascii) (ls : list string) (rest : string) :
  ls <> [] ->
  (String.concat (chr sep) ls +:+ chr sep) +:+ rest =
  foldr (fun l acc => l +:+ String sep acc) rest ls.
Proof.
  induction ls as [|l ls IH]; intros Hne; [congruence|].
  destruct ls as [|l' ls].
  - rewrite concat_single, sapp_assoc. unfold chr. rewrite sapp_cons, sapp_nil_l. reflexivity.
  - rewrite concat_cons2, !sapp_assoc. simpl foldr. f_equal.
    unfold chr at 1. rewrite sapp_cons, sapp_nil_l. f_equal.
    rewrite <- sapp_assoc. apply IH. discriminate.
Qed.

Lemma terminated_length (toISOString : Z -> string) (ds : list Details.BookDetails) :
  (5 * length ds <= String.length
     (foldr (fun l acc => l +:+ String newline acc) EmptyString (map (csvLine toISOString) ds)))%nat.
Proof.
  induction ds as [|d ds IH]; simpl; [lia|].
  rewrite slength_app. simpl. pose proof (csvLine_length toISOString d). lia.
Qed.

Lemma read_lines (toISOString : Z -> string) (ds : list Details.BookDetails) :
  ds <> [] -> (forall d, d ∈ ds -> plain (toISOString (Details.scrapedAt d))) ->
  forall fuel, (5 * length ds <= fuel)%nat ->
  read_records fuel
    (foldr (fun l acc => l +:+ String newline acc) EmptyString (map (csvLine toISOString) ds)) [] =
  Some (map (csvFields toISOString) ds).
Proof.
  induction ds as [|d ds IH]; intros Hne Hiso fuel Hfuel; [congruence|].
  destruct (csvLine_fields toISOString d) as (ws & Hl & HF & Hws);
    [apply Hiso; left|].
  simpl map. simpl foldr. rewrite Hl.
  assert (Hlen : length (csvFields toISOString d) = 5%nat) by reflexivity.
  rewrite (read_record ws _ HF Hws) by (simpl in Hfuel; lia).
  destruct ds as [|d' ds].
  - reflexivity.
  - rewrite Hlen.
    destruct (foldr (fun l acc => l +:+ String newline acc) EmptyString
                (map (csvLine toISOString) (d' :: ds))) eqn:E.
    + simpl in E. destruct (csvLine toISOString d'); discriminate.
    + rewrite IH; [reflexivity|discriminate|intros x Hx; apply Hiso; right; exact Hx|].
      simpl in Hfuel |- *. lia.
Qed.

Lemma fold_appendFile_some {A : Type} (data : A -> string) (filePath : string) :
  forall (batches : list A) (fs : files) (c0 : string),
  fs !! filePath = Some c0 ->
  fold_left (fun fs b => appendFile fs filePath (data b)) batches fs !! filePath =
  Some (c0 +:+ foldr (fun b acc => data b +:+ acc) EmptyString batches).
Proof.
  induction batches as [|b bs IH]; intros fs c0 Hc; simpl.
  - rewrite sapp_nil_r. exact Hc.
  - rewrite (IH _ (c0 +:+ data b)).
    + rewrite sapp_assoc. reflexivity.
    + unfold appendFile. rewrite lookup_insert_eq, Hc. reflexivity.
Qed.

Lemma fold_appendFile_none {A : Type} (data : A -> string) (filePath : string)
    (batches : list A) (fs : files) :
  fs !! filePath = None ->
  fold_left (fun fs b => appendFile fs filePath (data b)) batches fs !! filePath =
  match batches with
  | [] => None
  | _ => Some (foldr (fun b acc => data b +:+ acc) EmptyString batches)
  end.
Proof.
  intros Hn. destruct batches as [|b bs]; [exact Hn|]. simpl.
  rewrite (fold_appendFile_some data filePath bs _ (EmptyString +:+ data b)).
  - rewrite sapp_nil_l. reflexivity.
  - unfold appendFile. rewrite lookup_insert_eq, Hn. reflexivity.
Qed.

Lemma batches_terminated (toISOString : Z -> string) (batches : list (list Details.BookDetails)) :
  (forall b, b ∈ batches -> b <> []) ->
  foldr (fun b acc =>
      (String.concat (chr newline) (map (csvLine toISOString) b) +:+ chr newline) +:+ acc)
    EmptyString batches =
  foldr (fun l acc => l +:+ String newline acc) EmptyString
    (map (csvLine toISOString) (concat batches)).
Proof.
  induction batches as [|b bs IH]; intros Hne; [reflexivity|].
  simpl foldr at 1. rewrite IH by (intros x Hx; apply Hne; right; exact Hx).
  rewrite terminated_join by (destruct b; [destruct (Hne [] ltac:(left)); reflexivity|discriminate]).
  simpl concat. rewrite map_app, foldr_app. reflexivity.
Qed.

Lemma split_line (s r : string) :
  includes newline s = false ->
  split newline (s +:+ String newline r) = s :: split newline r.
Proof.
  induction s as [|c s IH]; intros Hs.
  - reflexivity.
  - simpl in Hs. apply orb_false_iff in Hs as [Hc Hs].
    rewrite sapp_cons. simpl. rewrite Hc, (IH Hs). reflexivity.
Qed.

Lemma split_terminated (ls : list string) (rest : string) :
  (forall l, l ∈ ls -> includes newline l = false) ->
  split newline (foldr (fun l acc => l +:+ String newline acc) rest ls) =
  ls ++ split newline rest.
Proof.
  induction ls as [|l ls IH]; intros Hl; [reflexivity|].
  simpl foldr. rewrite split_line by (apply Hl; left).
  rewrite IH by (intros x Hx; apply Hl; right; exact Hx). reflexivity.
Qed.

Lemma split_newline_cons (r : string) :
  split newline (String newline r) = EmptyString :: split newline r.
Proof. reflexivity. Qed.

Lemma filter_keep_all (P : string -> Prop) `{!forall x, Decision (P x)} (l : list string) :
  (forall x, x ∈ l -> P x) -> filter P l = l.
Proof.
  induction l as [|x l IH]; intros Hl; [reflexivity|].
  rewrite filter_cons_True by (apply Hl; left).
  rewrite IH by (intros y Hy; apply Hl; right; exact Hy). reflexivity.
Qed.

Lemma load_terminated (trimIsEmpty : string -> bool) (batches : list (list string)) :
  trimIsEmpty EmptyString = true ->
  (forall l, l ∈ concat batches -> includes newline l = false /\ trimIsEmpty l = false) ->
  filter (fun line => trimIsEmpty line = false)
    (split newline (foldr (fun b acc => (String.concat (chr newline) b +:+ chr newline) +:+ acc)
                      EmptyString batches)) =
  concat batches.
Proof.
  intros Hblank. induction batches as [|b bs IH]; intros Hl.
  - simpl. rewrite filter_cons_False by congruence. reflexivity.
  - simpl foldr. simpl concat in Hl |- *.
    destruct b as [|l ls].
    + change ((String.concat (chr newline) [] +:+ chr newline) +:+ ?r) with (String newline r).
      rewrite split_newline_cons, filter_cons_False by congruence.
      apply IH. intros x Hx. apply Hl. exact Hx.
    + rewrite terminated_join by discriminate.
      rewrite split_terminated
        by (intros x Hx; apply (Hl x); apply elem_of_app; left; exact Hx).
      rewrite filter_app, IH by (intros x Hx; apply Hl; apply elem_of_app; right; exact Hx).
      rewrite filter_keep_all; [reflexivity|].
      intros x Hx. apply (Hl x). apply elem_of_app. left. exact Hx.
Qed.

End StorageFacts.

(** Extra X10 ([saveBookDetailsBatch], [escapeCsvField]): starting from a
    missing file, the file written by successive non-empty
    [saveBookDetailsBatch] calls parses as CSV (RFC 4180 quoting) into the
    saved records' fields, in order, whatever their titles, authors and urls
    contain, provided the date rendering has no quote, comma or newline. *)
Theorem saveBookDetailsBatch_readCsv (toISOString : Z -> string) (fs : Storage.files)
    (filePath : string) (batches : list (list Details.BookDetails)) :
  fs !! filePath = None ->
  (forall z, Storage.includes Storage.dquote (toISOString z) = false /\
             Storage.includes Storage.comma (toISOString z) = false /\
             Storage.includes Storage.newline (toISOString z) = false) ->
  (forall b, b ∈ batches -> b <> []) ->
  Storage.readCsv
    (default EmptyString
       (fold_left (fun fs b => Storage.saveBookDetailsBatch toISOString fs filePath b)
          batches fs !! filePath)) =
  Some (map (Storage.csvFields toISOString) (concat batches)).
Proof.
  intros Hnone Hiso Hne. unfold Storage.saveBookDetailsBatch.
  pose proof (fold_appendFile_none
    (fun b => String.concat (Storage.chr Storage.newline)
                (map (Storage.csvLine toISOString) b) +:+ Storage.chr Storage.newline)
    filePath batches fs Hnone) as H.
  cbv beta in H. rewrite H. clear H.
  destruct batches as [|b bs]; [reflexivity|]. cbv iota beta.
  change (default EmptyString (Some ?x)) with x.
  rewrite batches_terminated by exact Hne.
  assert (Hds : concat (b :: bs) <> []).
  { simpl. destruct b; [destruct (Hne [] ltac:(left)); reflexivity|discriminate]. }
  pose proof (terminated_length toISOString (concat (b :: bs))) as Hlen.
  destruct (foldr (fun l acc => l +:+ String Storage.newline acc) EmptyString
              (map (Storage.csvLine toISOString) (concat (b :: bs)))) as [|a rest] eqn:E.
  - destruct (concat (b :: bs)); [congruence|]. simpl in Hlen. lia.
  - unfold Storage.readCsv. rewrite <- E.
    apply read_lines; [exact Hds| |].
    + intros d _. apply Hiso.
    + rewrite E. lia.
Qed.

(** Extra X11 ([saveLinks], [loadLinks]): starting from a missing file,
    [loadLinks] returns exactly the links appended by successive [saveLinks]
    calls, in order, when no link contains a newline or is blank. *)
Theorem saveLinks_loadLinks (trimIsEmpty : string -> bool) (fs : Storage.files)
    (filePath : string) (batches : list (list string)) :
  fs !! filePath = None ->
  trimIsEmpty EmptyString = true ->
  (forall l, l ∈ concat batches ->
     Storage.includes Storage.newline l = false /\ trimIsEmpty l = false) ->
  Storage.loadLinks trimIsEmpty
    (fold_left (fun fs links => Storage.saveLinks fs filePath links) batches fs) filePath =
  concat batches.
Proof.
  intros Hnone Hblank Hl. unfold Storage.loadLinks, Storage.saveLinks.
  pose proof (fold_appendFile_none
    (fun l => String.concat (Storage.chr Storage.newline) l +:+ Storage.chr Storage.newline)
    filePath batches fs Hnone) as H.
  cbv beta in H. rewrite H. clear H.
  destruct batches as [|b bs]; [reflexivity|]. cbv iota beta.
  apply load_terminated; assumption.
Qed.


Section TraceFacts.
Import LinkQueue.

Lemma step_cases (q : t) (o : op) :
  match o with
  | AddLinks l => step q o = (addLinks q l, Silent)
  | GetBatch n => step q o = (snd (getBatch q n), Drawn (fst (getBatch q n)))
  | MarkProcessed l s tm => step q o = (markProcessed q l s tm, Reported l)
  | MarkComplete => step q o = (markComplete q, Silent)
  end.
Proof.
  destruct o; simpl; try reflexivity.
Qed.

Lemma run_cons (q : t) (o : op) (ops : list op) :
  run q (o :: ops) = (fst (run (fst (step q o)) ops), snd (step q o) :: snd (run (fst (step q o)) ops)).
Proof.
  simpl. destruct (step q o) as [q1 e]. simpl. destruct (run q1 ops). reflexivity.
Qed.

End TraceFacts.

(** Extra X1 ([addLinks], [getBatch]): along any sequence of queue calls,
    the urls handed out by [getBatch] followed by the urls still queued form
    a subsequence of the initial queue followed by the urls passed to
    [addLinks]: urls leave in FIFO order and none is invented. *)
Theorem run_fifo (q : LinkQueue.t) (ops : list LinkQueue.op) :
  QueueTrace.drawn (snd (LinkQueue.run q ops)) ++ LinkQueue.queue (fst (LinkQueue.run q ops))
    `sublist_of` LinkQueue.queue q ++ QueueTrace.added ops.
Proof.
  revert q. induction ops as [|o ops IH]; intros q.
  - simpl. rewrite app_nil_r. reflexivity.
  - rewrite run_cons. simpl fst; simpl snd. pose proof (step_cases q o) as Hs.
    unfold QueueTrace.drawn, QueueTrace.added in *. cbn [map concat].
    destruct o as [l|n|l s tm|]; rewrite Hs; cbn [fst snd].
    + rewrite !app_nil_l. etransitivity; [apply IH|].
      cbn [LinkQueue.addLinks LinkQueue.queue]. rewrite app_assoc. apply sublist_app; [|reflexivity].
      apply sublist_app; [reflexivity|apply sublist_filter].
    + rewrite <- app_assoc.
      assert (Hq : LinkQueue.queue q =
        fst (LinkQueue.getBatch q n) ++ LinkQueue.queue (snd (LinkQueue.getBatch q n)))
        by (unfold LinkQueue.getBatch, LinkQueue.splice0; simpl; symmetry; apply take_drop).
      rewrite Hq, <- app_assoc. apply sublist_app; [reflexivity|]. apply IH.
    + rewrite app_nil_l. etransitivity; [apply IH|].
      unfold LinkQueue.markProcessed. destruct s; reflexivity.
    + rewrite !app_nil_l. etransitivity; [apply IH|]. reflexivity.
Qed.

(** Extra X2 ([markProcessed]): along any sequence of queue calls,
    [processed + failed] grows by exactly the number of urls reported to
    [markProcessed], and neither counter decreases. *)
Theorem run_stats_count (q : LinkQueue.t) (ops : list LinkQueue.op) :
  let q' := fst (LinkQueue.run q ops) in
  LinkQueue.processed (LinkQueue.stats q') + LinkQueue.failed (LinkQueue.stats q') =
    LinkQueue.processed (LinkQueue.stats q) + LinkQueue.failed (LinkQueue.stats q) +
    Z.of_nat (length (QueueTrace.reported (snd (LinkQueue.run q ops)))) /\
  LinkQueue.processed (LinkQueue.stats q) <= LinkQueue.processed (LinkQueue.stats q') /\
  LinkQueue.failed (LinkQueue.stats q) <= LinkQueue.failed (LinkQueue.stats q').
Proof.
  cbv zeta. revert q. induction ops as [|o ops IH]; intros q.
  - simpl. lia.
  - rewrite run_cons. simpl fst; simpl snd. pose proof (step_cases q o) as Hs.
    unfold QueueTrace.reported in *. simpl map. simpl concat.
    destruct o as [l|n|l s tm|]; rewrite Hs; simpl fst; simpl snd.
    + destruct (IH (LinkQueue.addLinks q l)) as (H1 & H2 & H3). simpl in *. lia.
    + destruct (IH (snd (LinkQueue.getBatch q n))) as (H1 & H2 & H3).
      unfold LinkQueue.getBatch, LinkQueue.splice0 in *. simpl in *. lia.
    + destruct (IH (LinkQueue.markProcessed q l s tm)) as (H1 & H2 & H3).
      rewrite length_app. unfold LinkQueue.markProcessed in *.
      destruct s; simpl in *; lia.
    + destruct (IH (LinkQueue.markComplete q)) as (H1 & H2 & H3). simpl in *. lia.
Qed.

Section AvgFacts.
Import LinkQueue.

Lemma markProcessed_avg_nonneg (q : t) (l : list string) (s : bool) (tm : Q) :
  0 <= processed (stats q) -> (0 <= avgProcessingTime (stats q))%Q -> (0 <= tm)%Q ->
  0 <= processed (stats (markProcessed q l s tm)) /\
  (0 <= avgProcessingTime (stats (markProcessed q l s tm)))%Q.
Proof.
  intros Hp Ha Ht. unfold markProcessed. destruct s; simpl; [|split; [lia|exact Ha]].
  split; [lia|].
  set (p' := processed (stats q) + Z.of_nat (length l)).
  assert (Hp' : (0 <= inject_Z p')%Q).
  { change 0%Q with (inject_Z 0). rewrite <- Zle_Qle. unfold p'. lia. }
  assert (Hd : (0 < inject_Z p' + 1)%Q).
  { change 1%Q with (inject_Z 1). rewrite <- inject_Z_plus.
    change 0%Q with (inject_Z 0). rewrite <- Zlt_Qlt. unfold p'. lia. }
  apply Qle_shift_div_l; [exact Hd|].
  rewrite Qmult_0_l. apply (Qplus_le_compat 0 _ 0 _); [|exact Ht].
  apply Qmult_le_0_compat; assumption.
Qed.

End AvgFacts.

Section AvgRun.
Import LinkQueue.

Lemma run_avg_invariant (ops : list op) :
  forall q : t,
  0 <= processed (stats q) -> (0 <= avgProcessingTime (stats q))%Q ->
  (forall l s tm, MarkProcessed l s tm ∈ ops -> (0 <= tm)%Q) ->
  0 <= processed (stats (fst (run q ops))) /\
  (0 <= avgProcessingTime (stats (fst (run q ops))))%Q.
Proof.
  induction ops as [|o ops IH]; intros q Hp Ha Ht; [split; assumption|].
  rewrite run_cons. cbn [fst]. pose proof (step_cases q o) as Hs.
  assert (Hrest : forall l s tm, MarkProcessed l s tm ∈ ops -> (0 <= tm)%Q)
    by (intros l s tm Hin; apply (Ht l s tm); right; exact Hin).
  destruct o as [l|n|l s tm|]; rewrite Hs; cbn [fst]; apply IH; try exact Hrest.
  all: try (unfold getBatch, splice0; simpl; assumption).
  all: try (simpl; assumption).
  all: apply markProcessed_avg_nonneg; try assumption; apply (Ht l s tm); left.
Qed.

End AvgRun.

(** Extra X3 ([markProcessed]): if [processed] and [avgProcessingTime]
    start non-negative and every reported processing time is non-negative,
    [avgProcessingTime] stays non-negative. *)
Theorem run_avg_nonneg (q : LinkQueue.t) (ops : list LinkQueue.op) :
  0 <= LinkQueue.processed (LinkQueue.stats q) ->
  (0 <= LinkQueue.avgProcessingTime (LinkQueue.stats q))%Q ->
  (forall l s tm, LinkQueue.MarkProcessed l s tm ∈ ops -> (0 <= tm)%Q) ->
  (0 <= LinkQueue.avgProcessingTime (LinkQueue.stats (fst (LinkQueue.run q ops))))%Q.
Proof. intros Hp Ha Ht. apply (run_avg_invariant ops q Hp Ha Ht). Qed.

Lemma run_avg_nonneg_witness :
  let ops := [LinkQueue.AddLinks ["https://a"; "https://b"]; LinkQueue.GetBatch 2;
              LinkQueue.MarkProcessed ["https://a"; "https://b"] true 300] in
  (forall l s tm, LinkQueue.MarkProcessed l s tm ∈ ops -> (0 <= tm)%Q) /\
  (0 <= LinkQueue.avgProcessingTime (LinkQueue.stats (fst (LinkQueue.run LinkQueue.init ops))))%Q.
Proof.
  cbv zeta.
  assert (H : forall l s tm, LinkQueue.MarkProcessed l s tm ∈
     [LinkQueue.AddLinks ["https://a"; "https://b"]; LinkQueue.GetBatch 2;
      LinkQueue.MarkProcessed ["https://a"; "https://b"] true 300] -> (0 <= tm)%Q).
  { intros l s tm Hin. rewrite !elem_of_cons, elem_of_nil in Hin.
    destruct Hin as [Hin|[Hin|[Hin|[]]]]; inversion Hin; subst. discriminate. }
  split; [exact H|]. apply run_avg_nonneg; [simpl; lia|discriminate|exact H].
Defined.


Section RetryFacts.
Context {A : Type} (cfg : Retry.RetryConfig) (op : Z -> outcome A) (ctx : string).

Lemma retry_loop_success (v : A) :
  forall (j : nat) (a : Z) (dl : Q) (fuel : nat),
  (forall i, a <= i < a + Z.of_nat j -> exists e, op i = Throw e) ->
  op (a + Z.of_nat j) = Ok v ->
  a + Z.of_nat j <= Retry.maxAttempts cfg ->
  Z.of_nat fuel = Retry.maxAttempts cfg - a + 1 ->
  Retry.retry_loop cfg op ctx a dl fuel =
    (Ok v, RetryDelays.backoffDelays dl (Retry.backoffFactor cfg) j).
Proof.
  induction j as [|j IH]; intros a dl fuel Hfail Hv Hmax Hfuel;
    (destruct fuel as [|fuel]; [lia|]); simpl.
  - rewrite Z.add_0_r in Hv. rewrite Hv. reflexivity.
  - destruct (Hfail a ltac:(lia)) as [e He]. rewrite He.
    rewrite (proj2 (Z.eqb_neq _ _)) by lia.
    rewrite (IH (a + 1) _ fuel); [reflexivity| | |lia|lia].
    + intros i Hi. apply Hfail. lia.
    + replace (a + 1 + Z.of_nat j) with (a + Z.of_nat (S j)) by lia. exact Hv.
Qed.

Lemma retry_loop_rejects :
  forall (fuel : nat) (a : Z) (dl : Q) (e : js_error),
  Z.of_nat fuel = Retry.maxAttempts cfg - a + 1 -> (0 < fuel)%nat ->
  fst (Retry.retry_loop cfg op ctx a dl fuel) = Throw e ->
  (forall i, a <= i <= Retry.maxAttempts cfg -> exists e', op i = Throw e') /\
  exists en, op (Retry.maxAttempts cfg) = Throw en /\
    e = ScrapingError (Retry.failedAfter (Retry.maxAttempts cfg) ctx) ctx
          (Some (Retry.asError en)).
Proof.
  induction fuel as [|fuel IH]; intros a dl e Hfuel Hpos H; [lia|].
  simpl in H. destruct (op a) as [v|err] eqn:Ea; [discriminate|].
  destruct (Z.eqb_spec a (Retry.maxAttempts cfg)) as [Heq|Hne].
  - simpl in H. inversion H; subst. split.
    + intros i Hi. assert (i = Retry.maxAttempts cfg) as -> by lia. eauto.
    + exists err. split; [exact Ea|reflexivity].
  - destruct (Retry.retry_loop cfg op ctx (a + 1) _ fuel) as [r ds] eqn:Er.
    simpl in H. subst r.
    destruct fuel as [|fuel']; [lia|].
    destruct (IH (a + 1) (dl * Retry.backoffFactor cfg)%Q e) as [Hall Hlast];
      [lia|lia|rewrite Er; reflexivity|].
    split; [|exact Hlast].
    intros i Hi. destruct (Z.eq_dec i a) as [->|Hia]; [eauto|]. apply Hall. lia.
Qed.

End RetryFacts.

(** Extra X4 ([retry]): if the first [k-1] attempts throw and attempt [k]
    (at most [maxAttempts]) succeeds with [v], [retry] resolves with [v]
    after waiting [delayMs], [delayMs * backoffFactor], ... ([k-1] delays). *)
Theorem retry_succeeds_at {A : Type} (operation : Z -> outcome A)
    (config : Retry.RetryConfig) (context : string) (k : nat) (v : A) :
  (1 <= k)%nat -> Z.of_nat k <= Retry.maxAttempts config ->
  (forall i, 1 <= i < Z.of_nat k -> exists e, operation i = Throw e) ->
  operation (Z.of_nat k) = Ok v ->
  Retry.retry operation config context =
    (Ok v, RetryDelays.backoffDelays (Retry.delayMs config) (Retry.backoffFactor config) (k - 1)).
Proof.
  intros Hk Hmax Hfail Hv. unfold Retry.retry.
  apply retry_loop_success.
  - intros i Hi. apply Hfail. lia.
  - replace (1 + Z.of_nat (k - 1)) with (Z.of_nat k) by lia. exact Hv.
  - lia.
  - rewrite Z2Nat.id by lia. lia.
Qed.

(** Extra X5 ([retry]): with [maxAttempts >= 1], [retry] rejects only when
    every attempt from 1 to [maxAttempts] threw, and then with the
    [ScrapingError] of the failed-after message whose cause is the last
    attempt's error. *)
Theorem retry_rejects_after_all_attempts {A : Type} (operation : Z -> outcome A)
    (config : Retry.RetryConfig) (context : string) (e : js_error) :
  1 <= Retry.maxAttempts config ->
  fst (Retry.retry operation config context) = Throw e ->
  (forall i, 1 <= i <= Retry.maxAttempts config -> exists e', operation i = Throw e') /\
  exists en, operation (Retry.maxAttempts config) = Throw en /\
    e = ScrapingError (Retry.failedAfter (Retry.maxAttempts config) context) context
          (Some (Retry.asError en)).
Proof.
  intros Hmax H. unfold Retry.retry in H.
  apply (retry_loop_rejects config operation context (Z.to_nat (Retry.maxAttempts config)) 1 (Retry.delayMs config) e);
    [rewrite Z2Nat.id by lia; lia|lia|exact H].
Qed.

(** Extra X6 ([retry]): with [maxAttempts <= 0] the operation is never
    called, no delay is awaited, and [retry] rejects with
    [Error('Unexpected retry failure')]. *)
Theorem retry_nonpositive_attempts {A : Type} (operation : Z -> outcome A)
    (config : Retry.RetryConfig) (context : string) :
  Retry.maxAttempts config <= 0 ->
  Retry.retry operation config context = (Throw (JsError "Unexpected retry failure"), []).
Proof.
  intros H. unfold Retry.retry. rewrite Z2Nat.nonpos by exact H. reflexivity.
Qed.

Section ProcessLinkFacts.
Import Details.

(** Extra X7 ([processLink]): when [processLink] rejects, it rejects with
    a [ScrapingError] whose message is [Failed after 3 attempts: url], whose
    url is the link, and which has a cause. *)
Theorem processLink_rejects (cm : option Z) (attempts : Z -> attempt_env) (u : string)
    (now : Z) (e : js_error) :
  processLink cm attempts u now = Throw e ->
  exists cause, e = ScrapingError ("Failed after 3 attempts: " +:+ u) u (Some cause).
Proof.
  unfold processLink, Retry.retry. intros H.
  apply retry_loop_rejects in H as [_ [en [_ He]]]; [|reflexivity|cbv; lia].
  exists (Retry.asError en). exact He.
Qed.

End ProcessLinkFacts.


(** Extra X8 ([extractBookDetails]): every rejection is a [ParseError]:
    either one for this url, or a [ParseError] thrown by one of the three
    [$eval] calls and rethrown unchanged. *)
Theorem extractBookDetails_rejects (page : Details.DetailPage) (u : string) (now : Z)
    (e : js_error) :
  Details.extractBookDetails page u now = Throw e ->
  (exists cause, e = ParseError u cause) \/
  ((Details.titleEval page = Throw e \/ Details.authorEval page = Throw e \/
    Details.recommendationsEval page = Throw e) /\
   exists u' cause, e = ParseError u' cause).
Proof.
  unfold Details.extractBookDetails.
  destruct (Details.titleEval page) as [t|e1] eqn:E1.
  2: { intros H; inversion H; subst; destruct e1; try (left; eauto; fail).
       right. split; [left; reflexivity|eauto]. }
  destruct (Details.authorEval page) as [a|e1] eqn:E2.
  2: { intros H; inversion H; subst; destruct e1; try (left; eauto; fail).
       right. split; [right; left; reflexivity|eauto]. }
  destruct (Details.recommendationsEval page) as [[h c]|e1] eqn:E3.
  2: { intros H; inversion H; subst; destruct e1; try (left; eauto; fail).
       right. split; [right; right; reflexivity|eauto]. }
  destruct (bool_decide (t = "") || bool_decide (a = "")).
  - intros H. inversion H. left. eauto.
  - destruct (Z.eqb _ 0); discriminate.
Qed.

(** Extra X9 ([extractBookDetails]): an extracted record has the non-empty
    title and author read from the page, a header starting with the
    recommendations prefix, [recommendationsCount = children - 1] (so
    children is not 1), the given url and the given timestamp. *)
Theorem extractBookDetails_record (page : Details.DetailPage) (u : string) (now : Z)
    (d : Details.BookDetails) :
  Details.extractBookDetails page u now = Ok (Some d) ->
  exists header childrenLength,
    Details.titleEval page = Ok (Details.title d) /\
    Details.authorEval page = Ok (Details.author d) /\
    Details.recommendationsEval page = Ok (header, childrenLength) /\
    Details.title d <> "" /\ Details.author d <> "" /\
    String.prefix Details.recommendationsPrefix header = true /\
    Details.recommendationsCount d = childrenLength - 1 /\ childrenLength <> 1 /\
    Details.url d = u /\ Details.scrapedAt d = now.
Proof.
  unfold Details.extractBookDetails.
  destruct (Details.titleEval page) as [t|e1]; [|discriminate].
  destruct (Details.authorEval page) as [a|e1]; [|discriminate].
  destruct (Details.recommendationsEval page) as [[h c]|e1]; [|discriminate].
  destruct (bool_decide (t = "")) eqn:Ht; [discriminate|].
  destruct (bool_decide (a = "")) eqn:Ha; [discriminate|]. simpl.
  apply bool_decide_eq_false in Ht, Ha.
  destruct (String.prefix Details.recommendationsPrefix h) eqn:Hp.
  - destruct (Z.eqb_spec (c - 1) 0); [discriminate|].
    intros H. inversion H; subst. simpl. exists h, c. split_and!; auto. lia.
  - rewrite Z.eqb_refl. discriminate.
Qed.

Section UtilsFacts.

Lemma Qfloor_bounds (x : Q) (n : Z) :
  (0 <= x)%Q -> (x < inject_Z n)%Q -> 0 <= Qfloor x < n.
Proof.
  intros H0 Hn. split.
  - pose proof (Qlt_floor x) as H1.
    assert (H2 : (inject_Z 0 < inject_Z (Qfloor x + 1))%Q) by
      (apply Qle_lt_trans with x; [exact H0|exact H1]).
    rewrite <- Zlt_Qlt in H2. lia.
  - pose proof (Qfloor_le x) as H1.
    assert (H2 : (inject_Z (Qfloor x) < inject_Z n)%Q) by
      (apply Qle_lt_trans with x; [exact H1|exact Hn]).
    rewrite <- Zlt_Qlt in H2. exact H2.
Qed.

End UtilsFacts.

(** Extra X12 ([randomInteger]): for [0 <= random < 1] and [min <= max],
    the result lies between [min] and [max] inclusive. *)
Theorem randomInteger_range (random : Q) (min max : Z) :
  (0 <= random)%Q -> (random < 1)%Q -> min <= max ->
  min <= Utils.randomInteger random min max <= max.
Proof.
  intros H0 H1 Hm. unfold Utils.randomInteger.
  assert (Hn : (0 < inject_Z (max - min + 1))%Q)
    by (change 0%Q with (inject_Z 0); rewrite <- Zlt_Qlt; lia).
  destruct (Qfloor_bounds (random * inject_Z (max - min + 1)) (max - min + 1)).
  - apply Qmult_le_0_compat; [exact H0|apply Qlt_le_weak; exact Hn].
  - rewrite <- (Qmult_1_l (inject_Z (max - min + 1))) at 2.
    apply Qmult_lt_compat_r; assumption.
  - lia.
Qed.

Lemma randomInteger_range_witness :
  (0 <= 999 # 1000)%Q /\ (999 # 1000 < 1)%Q /\ 1 <= 6 /\
  1 <= Utils.randomInteger (999 # 1000) 1 6 <= 6.
Proof.
  split; [discriminate|]. split; [reflexivity|]. split; [lia|].
  apply randomInteger_range; [discriminate|reflexivity|lia].
Defined.

Lemma progressLog_spaced (lastLog : Z) (calls : list (Z * string)) :
  (forall t m, Utils.progressLog lastLog calls !! 0%nat = Some (t, m) -> 1000 <= t - lastLog) /\
  (forall i t1 m1 t2 m2,
     Utils.progressLog lastLog calls !! i = Some (t1, m1) ->
     Utils.progressLog lastLog calls !! S i = Some (t2, m2) -> 1000 <= t2 - t1).
Proof.
  revert lastLog. induction calls as [|[now msg] calls IH]; intros lastLog; simpl.
  - split; intros; discriminate.
  - destruct (Z.leb_spec 1000 (now - lastLog)) as [Hle|Hlt].
    + destruct (IH now) as [IH0 IHs]. split.
      * intros t m H. simpl in H. inversion H; subst. exact Hle.
      * intros [|i] t1 m1 t2 m2 H1 H2; simpl in H1, H2.
        -- inversion H1; subst. apply (IH0 t2 m2 H2).
        -- apply (IHs i t1 m1 t2 m2 H1 H2).
    + exact (IH lastLog).
Qed.

(** Extra X13 ([createProgressLogger]): the logger prints a subsequence of
    its calls, the first printed call at time at least 1000, and any two
    consecutive printed calls at least 1000 ms apart. *)
Theorem createProgressLogger_spaced (calls : list (Z * string)) :
  Utils.createProgressLogger calls `sublist_of` calls /\
  (forall t m, Utils.createProgressLogger calls !! 0%nat = Some (t, m) -> 1000 <= t) /\
  (forall i t1 m1 t2 m2,
     Utils.createProgressLogger calls !! i = Some (t1, m1) ->
     Utils.createProgressLogger calls !! S i = Some (t2, m2) -> 1000 <= t2 - t1).
Proof.
  unfold Utils.createProgressLogger. split; [|split].
  - generalize 0. induction calls as [|[now msg] calls IH]; intros lastLog; simpl; [reflexivity|].
    destruct (Z.leb 1000 (now - lastLog)).
    + apply sublist_skip. apply IH.
    + apply sublist_cons. apply IH.
  - intros t m H. pose proof (proj1 (progressLog_spaced 0 calls) t m H). lia.
  - apply progressLog_spaced.
Qed.


(** Extra X14 ([processBatch], its [effectiveBatchSize]): for
    [baseSize >= 1] the concurrency lies between
    [max(1, floor(baseSize * 0.8))] and [floor(baseSize * 1.2)], and it is
    [floor(baseSize * 1.2)] while nothing has been processed. *)
Theorem effectiveBatchSize_bounds (s : LinkQueue.QueueStats) (baseSize : Z) :
  1 <= baseSize ->
  Z.max 1 (baseSize * 4 / 5) <= DetailLoop.effectiveBatchSize s baseSize <= baseSize * 6 / 5 /\
  (LinkQueue.processed s <= 0 -> DetailLoop.effectiveBatchSize s baseSize = baseSize * 6 / 5).
Proof.
  intros Hb. unfold DetailLoop.effectiveBatchSize.
  assert (H45 : baseSize * 4 / 5 <= baseSize * 1 / 1) by
    (rewrite Z.div_1_r; apply Z.div_le_upper_bound; lia).
  assert (H65 : baseSize * 1 / 1 <= baseSize * 6 / 5) by
    (rewrite Z.div_1_r; apply Z.div_le_lower_bound; lia).
  assert (H1 : 1 <= baseSize * 6 / 5) by (apply Z.div_le_lower_bound; lia).
  split.
  - destruct (Qltb (9 # 10) _); [|destruct (Qltb (7 # 10) _)];
      rewrite Qfloor_scale; lia.
  - intros Hp. destruct (Z.ltb_spec 0 (LinkQueue.processed s)) as [H|H]; [lia|].
    change (Qltb (9 # 10) 1) with true. cbv iota. rewrite Qfloor_scale. lia.
Qed.

Lemma effectiveBatchSize_bounds_witness :
  1 <= 10 /\
  Z.max 1 (10 * 4 / 5) <= DetailLoop.effectiveBatchSize (LinkQueue.stats LinkQueue.init) 10
    <= 10 * 6 / 5.
Proof.
  split; [lia|]. apply (effectiveBatchSize_bounds (LinkQueue.stats LinkQueue.init) 10). lia.
Defined.

Section LoopFacts.
Import LinkQueue DetailLoop.

Lemma produce_processing (acts : list producer_action) :
  forall q, processing (produce acts q) = processing q.
Proof.
  induction acts as [|a acts IH]; intros q; [reflexivity|].
  simpl. rewrite IH. destruct a; reflexivity.
Qed.

Lemma markProcessed_processing (q : t) (links : list string) (b : bool) (pt : Q) :
  processing (markProcessed q links b pt) = processing q ∖ list_to_set links.
Proof. unfold markProcessed. destruct b; reflexivity. Qed.

Lemma processBatch_processing (pl : string -> outcome (option Details.BookDetails))
    (save : list Details.BookDetails -> outcome unit) (links : list string) (q : t) (el : Q) :
  processing (snd (Details.processBatch pl save links q el)) =
  processing q ∖ list_to_set links.
Proof.
  unfold Details.processBatch.
  destruct (Details.successfulResults _); [|destruct (save _)];
    apply markProcessed_processing.
Qed.

Lemma hasMore_false (q : t) :
  hasMore q = false -> queue q = [] /\ isComplete q = true.
Proof.
  unfold hasMore. intros H. apply orb_false_iff in H as [H _].
  apply orb_false_iff in H as [H1 H2]. apply negb_false_iff in H2.
  split; [|exact H2]. destruct (queue q); [reflexivity|discriminate].
Qed.

Lemma detailLoop_invariant (E : loop_env) :
  forall fuel i q, processing q = ∅ ->
  processing (snd (detailLoop E fuel i q)) = ∅ /\
  (fst (detailLoop E fuel i q) = Some (Ok tt) -> queue (snd (detailLoop E fuel i q)) = [] /\
     isComplete (snd (detailLoop E fuel i q)) = true).
Proof.
  induction fuel as [|fuel IH]; intros i q Hq; cbn [detailLoop];
    [split; [exact Hq|discriminate]|].
  set (q0 := produce (resumed E i) q).
  assert (Hq0 : processing q0 = ∅) by (unfold q0; rewrite produce_processing; exact Hq).
  clearbody q0.
  destruct (hasMore q0) eqn:Hm; [|split; [exact Hq0|intros _; apply hasMore_false, Hm]].
  destruct (getBatch q0 (maxConcurrent E)) as [batch q1] eqn:Hg.
  assert (Hq1 : processing q1 = list_to_set batch).
  { unfold getBatch, splice0 in Hg. inversion Hg; subst. simpl. rewrite Hq0. set_solver. }
  destruct batch as [|b bs].
  - assert (Hq1' : processing q1 = ∅) by (rewrite Hq1; reflexivity).
    destruct (hasMore q1) eqn:Hm1.
    + apply IH. exact Hq1'.
    + split; [exact Hq1'|intros _; apply hasMore_false, Hm1].
  - destruct (Details.processBatch _ _ _ _ _) as [[r w] q2] eqn:Hp.
    assert (Hq2 : processing q2 = ∅).
    { pose proof (processBatch_processing (processLinkResult E i) (saveBatch E i) (b :: bs)
        (produce (inFlight E i) q1) (elapsed E i)) as H.
      rewrite Hp in H. simpl in H. rewrite H, produce_processing, Hq1. set_solver. }
    destruct r as [[]|e].
    + apply IH. exact Hq2.
    + split; [exact Hq2|discriminate].
Qed.

End LoopFacts.

(** Extra X15 ([scrapeBookDetails]): starting with no url in flight,
    whatever the collection loop does meanwhile, the detail loop ends with
    no url in flight, and when it completes normally the queue is empty and
    marked complete. *)
Theorem scrapeBookDetails_settles_batches (E : DetailLoop.loop_env) (fuel : nat) (q : LinkQueue.t) :
  LinkQueue.processing q = ∅ ->
  let '(r, q') := DetailLoop.scrapeBookDetails E fuel q in
  LinkQueue.processing q' = ∅ /\
  (r = Some (Ok tt) -> LinkQueue.queue q' = [] /\ LinkQueue.isComplete q' = true).
Proof.
  intros Hq. unfold DetailLoop.scrapeBookDetails.
  destruct (DetailLoop.initializeResult E).
  - pose proof (detailLoop_invariant E fuel 0 q Hq) as H.
    destruct (DetailLoop.detailLoop E fuel 0 q). exact H.
  - split; [exact Hq|discriminate].
Qed.


Lemma retry_succeeds_at_witness :
  let op := fun i : Z => if Z.ltb i 2 then Throw (JsError "timeout") else Ok 7 in
  let cfg := Retry.mkRetryConfig 3 500 (3 # 2) in
  (1 <= 2)%nat /\ Z.of_nat 2 <= Retry.maxAttempts cfg /\
  (forall i, 1 <= i < Z.of_nat 2 -> exists e, op i = Throw e) /\
  op (Z.of_nat 2) = Ok 7 /\
  Retry.retry op cfg "https://a" =
    (Ok 7, RetryDelays.backoffDelays (Retry.delayMs cfg) (Retry.backoffFactor cfg) (2 - 1)).
Proof.
  cbv zeta.
  assert (Hf : forall i, 1 <= i < Z.of_nat 2 ->
    exists e, (if Z.ltb i 2 then Throw (JsError "timeout") else Ok 7) = Throw e).
  { intros i Hi. exists (JsError "timeout"). destruct (Z.ltb_spec i 2); [reflexivity|lia]. }
  split; [lia|]. split; [simpl; lia|]. split; [exact Hf|]. split; [reflexivity|].
  apply retry_succeeds_at; [lia|simpl; lia|exact Hf|reflexivity].
Defined.

Lemma retry_rejects_after_all_attempts_witness :
  let op := fun _ : Z => (Throw (NonError "boom") : outcome Z) in
  let cfg := Retry.mkRetryConfig 2 500 2 in
  1 <= Retry.maxAttempts cfg /\
  fst (Retry.retry op cfg "https://a") =
    Throw (ScrapingError (Retry.failedAfter 2 "https://a") "https://a" (Some (JsError "boom"))) /\
  ((forall i, 1 <= i <= Retry.maxAttempts cfg -> exists e', op i = Throw e') /\
   exists en, op (Retry.maxAttempts cfg) = Throw en /\
     ScrapingError (Retry.failedAfter 2 "https://a") "https://a" (Some (JsError "boom")) =
     ScrapingError (Retry.failedAfter (Retry.maxAttempts cfg) "https://a") "https://a"
       (Some (Retry.asError en))).
Proof.
  cbv zeta. split; [simpl; lia|]. split; [reflexivity|].
  apply retry_rejects_after_all_attempts; [simpl; lia|reflexivity].
Defined.

Lemma retry_nonpositive_attempts_witness :
  Retry.maxAttempts (Retry.mkRetryConfig 0 500 2) <= 0 /\
  Retry.retry (fun _ : Z => Ok 1) (Retry.mkRetryConfig 0 500 2) "https://a" =
    (Throw (JsError "Unexpected retry failure"), []).
Proof.
  split; [simpl; lia|]. apply retry_nonpositive_attempts. simpl. lia.
Defined.

Lemma processLink_rejects_witness :
  let attempts := fun _ : Z =>
    Details.mkAttempt (Throw (JsError "no page")) (fun _ => (false, None))
      (Details.mkPage (Ok "T") (Ok "A") (Ok (Details.recommendationsPrefix, 4))) in
  Details.processLink None attempts "https://a" 0 =
    Throw (ScrapingError ("Failed after 3 attempts: " +:+ "https://a") "https://a"
             (Some (JsError "no page"))) /\
  exists cause,
    ScrapingError ("Failed after 3 attempts: " +:+ "https://a") "https://a"
      (Some (JsError "no page")) =
    ScrapingError ("Failed after 3 attempts: " +:+ "https://a") "https://a" (Some cause).
Proof.
  cbv zeta. split; [reflexivity|].
  apply (processLink_rejects None (fun _ : Z =>
    Details.mkAttempt (Throw (JsError "no page")) (fun _ => (false, None))
      (Details.mkPage (Ok "T") (Ok "A") (Ok (Details.recommendationsPrefix, 4)))) "https://a" 0).
  reflexivity.
Defined.

Lemma extractBookDetails_rejects_witness :
  let page := Details.mkPage (Throw (JsError "no h1")) (Ok "A") (Ok ("", 0)) in
  Details.extractBookDetails page "https://a" 0 = Throw (ParseError "https://a" (Some (JsError "no h1"))) /\
  ((exists cause, ParseError "https://a" (Some (JsError "no h1")) = ParseError "https://a" cause) \/
   ((Details.titleEval page = Throw (ParseError "https://a" (Some (JsError "no h1"))) \/
     Details.authorEval page = Throw (ParseError "https://a" (Some (JsError "no h1"))) \/
     Details.recommendationsEval page = Throw (ParseError "https://a" (Some (JsError "no h1")))) /\
    exists u' cause, ParseError "https://a" (Some (JsError "no h1")) = ParseError u' cause)).
Proof.
  cbv zeta. split; [reflexivity|]. apply extractBookDetails_rejects with (now := 0). reflexivity.
Defined.

Lemma extractBookDetails_record_witness :
  let page := Details.mkPage (Ok "T") (Ok "A") (Ok (Details.recommendationsPrefix +:+ " x", 4)) in
  let d := Details.mkDetails "T" "A" 3 "https://a" 5 in
  Details.extractBookDetails page "https://a" 5 = Ok (Some d) /\
  exists header childrenLength,
    Details.titleEval page = Ok (Details.title d) /\
    Details.authorEval page = Ok (Details.author d) /\
    Details.recommendationsEval page = Ok (header, childrenLength) /\
    Details.title d <> "" /\ Details.author d <> "" /\
    String.prefix Details.recommendationsPrefix header = true /\
    Details.recommendationsCount d = childrenLength - 1 /\ childrenLength <> 1 /\
    Details.url d = "https://a" /\ Details.scrapedAt d = 5.
Proof.
  cbv zeta. split; [reflexivity|]. apply extractBookDetails_record. reflexivity.
Defined.

Lemma saveBookDetailsBatch_readCsv_witness :
  let d1 := Details.mkDetails ("A, " +:+ Storage.chr Storage.dquote +:+ "B" +:+ Storage.chr Storage.dquote)
              "C" 2 "https://a" 10 in
  let d2 := Details.mkDetails "D" "E" 5 "https://b" 20 in
  (∅ : Storage.files) !! "books.csv" = None /\
  (forall z : Z, Storage.includes Storage.dquote (pretty z) = false /\
             Storage.includes Storage.comma (pretty z) = false /\
             Storage.includes Storage.newline (pretty z) = false) /\
  (forall b, b ∈ [[d1; d2]; [d1]] -> b <> []) /\
  Storage.readCsv
    (default EmptyString
       (fold_left (fun fs b => Storage.saveBookDetailsBatch (fun z : Z => pretty z) fs "books.csv" b)
          [[d1; d2]; [d1]] ∅ !! "books.csv")) =
  Some (map (Storage.csvFields (fun z : Z => pretty z)) (concat [[d1; d2]; [d1]])).
Proof.
  cbv zeta.
  assert (Hz : forall z : Z, Storage.includes Storage.dquote (pretty z) = false /\
             Storage.includes Storage.comma (pretty z) = false /\
             Storage.includes Storage.newline (pretty z) = false)
    by (intros z; apply pretty_Z_plain).
  assert (Hb : forall b : list Details.BookDetails,
      b ∈ [[Details.mkDetails ("A, " +:+ Storage.chr Storage.dquote +:+ "B" +:+ Storage.chr Storage.dquote)
              "C" 2 "https://a" 10; Details.mkDetails "D" "E" 5 "https://b" 20];
           [Details.mkDetails ("A, " +:+ Storage.chr Storage.dquote +:+ "B" +:+ Storage.chr Storage.dquote)
              "C" 2 "https://a" 10]] -> b <> []).
  { intros b Hin. rewrite !elem_of_cons, elem_of_nil in Hin.
    destruct Hin as [->|[->|[]]]; discriminate. }
  split; [reflexivity|]. split; [exact Hz|]. split; [exact Hb|].
  apply saveBookDetailsBatch_readCsv; [reflexivity|exact Hz|exact Hb].
Defined.

Lemma saveLinks_loadLinks_witness :
  let trimIsEmpty := fun s : string =>
    forallb (fun c => bool_decide (c = Ascii.ascii_of_nat 32)) (String.list_ascii_of_string s) in
  let batches := [["https://a"; "https://b"]; []; ["https://c"]] in
  (∅ : Storage.files) !! "links.txt" = None /\
  trimIsEmpty EmptyString = true /\
  (forall l, l ∈ concat batches ->
     Storage.includes Storage.newline l = false /\ trimIsEmpty l = false) /\
  Storage.loadLinks trimIsEmpty
    (fold_left (fun fs links => Storage.saveLinks fs "links.txt" links) batches ∅) "links.txt" =
  concat batches.
Proof.
  cbv zeta.
  assert (Hl : forall l, l ∈ concat [["https://a"; "https://b"]; []; ["https://c"]] ->
     Storage.includes Storage.newline l = false /\
     forallb (fun c => bool_decide (c = Ascii.ascii_of_nat 32)) (String.list_ascii_of_string l) = false).
  { intros l Hin. simpl in Hin. rewrite !elem_of_cons, elem_of_nil in Hin.
    destruct Hin as [->|[->|[->|[]]]]; split; reflexivity. }
  split; [reflexivity|]. split; [reflexivity|]. split; [exact Hl|].
  apply saveLinks_loadLinks; [reflexivity|reflexivity|exact Hl].
Defined.

Lemma scrapeBookDetails_settles_batches_witness :
  let E := DetailLoop.mkLoopEnv (Ok tt) 2
    (fun i => if Nat.eqb i 0
              then [DetailLoop.PAddLinks ["https://a"; "https://b"; "https://c"]; DetailLoop.PMarkComplete]
              else [])
    (fun _ => []) (fun _ u => Ok None) (fun _ _ => Ok tt) (fun _ => 100%Q) in
  LinkQueue.processing LinkQueue.init = ∅ /\
  let '(r, q') := DetailLoop.scrapeBookDetails E 5 LinkQueue.init in
  LinkQueue.processing q' = ∅ /\
  (r = Some (Ok tt) -> LinkQueue.queue q' = [] /\ LinkQueue.isComplete q' = true).
Proof.
  cbv zeta. split; [reflexivity|]. apply scrapeBookDetails_settles_batches. reflexivity.
Defined.
